(** * VoiceInput: the voice recording component

    A shallow embedding of [frontend/src/components/voiceinput.js], the React
    function component that drives [webkitSpeechRecognition], samples the
    microphone level and keeps the recording timer, together with the
    properties its specification states about it.

    How the component is read.  [VoiceInput] is a function that React calls
    once per render.  The constants it destructures from [useState]
    ([isRecording], [isPaused], [transcript], ...) are fixed for that call, and
    every function it defines ([startRecording], [stopRecording],
    [updateLevel], the recognition handlers installed by [useEffect]) closes
    over the constants of the render that created it.  A setter such as
    [setIsPaused] does not change what an existing closure sees; it changes
    the state React keeps, which the next render reads.  The embedding makes
    this explicit: a handler takes the render it belongs to (a [Hooks] value)
    and transforms the [World], which holds the state React keeps, the refs,
    the platform objects and the log of outside effects.

    A run is a sequence of events: clicks on the buttons the JSX shows,
    events of the recognition objects that are listening, the settling of a
    [getUserMedia] promise, animation frames and timer ticks.  Each event
    runs its handler to the end (or to its [await]) and is followed by the
    render it causes, with the cleanup and the body of the effect when
    [isRecording] or [isPaused] changed, before the next event is handled.
    Numbers are IEEE binary64 floats where the source computes with
    fractions ([audioLevel]) and integers where it only counts
    ([recordingTime]); strings are strings of code units below 256. *)

From Stdlib Require Import ZArith List String Ascii Bool Lia Floats Uint63.
From Stdlib Require Import Strings.Byte.
From Stdlib Require Import DecimalString DecimalPos DecimalZ.
Import ListNotations.
Open Scope string_scope.
Open Scope list_scope.
Open Scope Z_scope.

(** ** JavaScript strings *)

Module JS.

(** Truthiness of a string: [if (s)] holds for every string but [''] . *)
Definition truthy (s : string) : bool :=
  match s with
  | EmptyString => false
  | String _ _ => true
  end.

(** White space and line terminators removed by [String.prototype.trim],
    for the code units below 256: TAB, LF, VT, FF, CR, SP and NBSP. *)
Definition isWhiteSpace (c : ascii) : bool :=
  let n := N_of_ascii c in
  ((9 <=? n) && (n <=? 13) || (n =? 32) || (n =? 160))%N.

Fixpoint trimStart (s : string) : string :=
  match s with
  | EmptyString => EmptyString
  | String c s' => if isWhiteSpace c then trimStart s' else s
  end.

Fixpoint trimEnd (s : string) : string :=
  match s with
  | EmptyString => EmptyString
  | String c s' =>
      match trimEnd s' with
      | EmptyString => if isWhiteSpace c then EmptyString else String c EmptyString
      | t => String c t
      end
  end.

Definition trim (s : string) : string := trimEnd (trimStart s).

(** [Array.prototype.reduce((a, b) => a + b)] without an initial value: the
    first element seeds the accumulator; an empty array is a [TypeError]. *)
Definition reduce_add (l : list Z) : option Z :=
  match l with
  | [] => None
  | a :: r => Some (fold_left Z.add r a)
  end.

(** A non-negative integer below [2^53] as a JavaScript number. *)
Definition number (z : Z) : float := PrimFloat.of_uint63 (Uint63.of_Z z).

(** [Math.min(a, b)] on numbers that are not NaN. *)
Definition Math_min (a b : float) : float :=
  if PrimFloat.ltb b a then b else a.

(** [Math.floor(x)] of a finite number, read off its mantissa and
    exponent: [m * 2^e] rounded down.  The numbers it is applied to are
    finite and not negative. *)
Definition Math_floor (x : float) : Z :=
  match Prim2SF x with
  | S754_finite s m e => Z.shiftl (if s then Z.neg m else Z.pos m) e
  | _ => 0
  end.

(** [Number.prototype.toString()] of an integer of magnitude below
    [10^21]: its decimal digits, after a minus sign when it is negative. *)
Definition toString (z : Z) : string := NilZero.string_of_int (Z.to_int z).

(** The first [k] characters of [cur] followed by [pad] repeated. *)
Fixpoint filler (k : nat) (pad cur : string) : string :=
  match k with
  | O => EmptyString
  | S k' =>
      match cur with
      | String c r => String c (filler k' pad r)
      | EmptyString =>
          match pad with
          | String c r => String c (filler k' pad r)
          | EmptyString => EmptyString
          end
      end
  end.

(** [s.padStart(targetLength, pad)]: [s] itself when it is long enough
    or [pad] is empty, else [pad] repeated and cut to the missing length,
    then [s]. *)
Definition padStart (targetLength : nat) (pad s : string) : string :=
  (filler (targetLength - String.length s) pad pad ++ s)%string.

End JS.

(** ** The audio level of one sampling tick *)

(** [analyserRef.current.fftSize = 256]; the analyser's [frequencyBinCount]
    is half of the FFT size, and [dataArray] is a [Uint8Array] of that
    length. *)
Definition fftSize : nat := 256.
Definition bufferLength : nat := Nat.div fftSize 2.

Definition byteValue (b : byte) : Z := Z.of_N (Byte.to_N b).

(** [dataArray.reduce((a, b) => a + b) / bufferLength], then
    [Math.min(100, (average / 255) * 150)].  The sum of bytes is an exact
    integer; the divisions and the product are IEEE binary64 operations. *)
Definition levelOfSum (sum : Z) : float :=
  let average := PrimFloat.div (JS.number sum) (JS.number (Z.of_nat bufferLength)) in
  JS.Math_min 100%float
    (PrimFloat.mul (PrimFloat.div average 255%float) 150%float).

Definition level (dataArray : list byte) : option float :=
  option_map levelOfSum (JS.reduce_add (map byteValue dataArray)).

(** [0 <= x <= 100] on floats. *)
Definition inUnitPercent (x : float) : bool :=
  PrimFloat.leb 0%float x && PrimFloat.leb x 100%float.

(** ** State, refs and platform objects *)

(** The six [useState] cells.  A value of this type is also what one render
    sees, and therefore what the closures created by that render see. *)
Record Hooks := mkHooks {
  isRecording : bool;
  isPaused : bool;
  transcript : string;
  interimTranscript : string;
  audioLevel : float;
  recordingTime : Z
}.

Definition initialHooks : Hooks :=
  mkHooks false false "" "" 0%float 0.

(** The five [useRef] cells; platform objects are named by the order of
    their creation. *)
Record Refs := mkRefs {
  recognitionRef : option nat;
  timerRef : option nat;
  audioContextRef : option nat;
  analyserRef : option nat;
  streamRef : option nat
}.

(** A [webkitSpeechRecognition] object: the render whose constants its
    [onresult], [onerror] and [onend] close over, and whether it is between
    a [start()] and its [end] event. *)
Record Recognition := mkRecognition {
  handlers : Hooks;
  listening : bool
}.

(** What the component does to the outside, in order. *)
Inductive Effect :=
| RecognitionStart (r : nat)
| RecognitionStop (r : nat)
| GetUserMedia
| SetInterval (t : nat)
| ClearInterval (t : nat)
| TracksStop (s : nat)
| ContextClose (a : nat)
| RequestAnimationFrame
| OnTranscript (text : string)
| OnSend (text : string)
| Alert (msg : string)
| ConsoleError (msg : string) (arg : string).

Record World := mkWorld {
  hooks : Hooks;                  (* the state React keeps *)
  refs : Refs;
  recognitions : list Recognition; (* every object the effect created *)
  intervals : list nat;           (* timers set and not cleared *)
  nextInterval : nat;
  mediaRequests : list Hooks;     (* pending getUserMedia promises, each with
                                     the render of the startRecording call
                                     that awaits it *)
  nextStream : nat;
  nextContext : nat;
  animationFrames : list Hooks;   (* updateLevel callbacks handed to
                                     requestAnimationFrame, each with the
                                     render it closes over *)
  log : list Effect
}.

Definition Action := World -> World.

Definition seq_action (a b : Action) : Action := fun w => b (a w).
Notation "a ;; b" := (seq_action a b) (at level 61, left associativity).

Definition skip : Action := fun w => w.

Definition when (b : bool) (a : Action) : Action := if b then a else skip.

(** [if (ref.current) { ... ref.current ... }] *)
Definition whenRef (ref : Refs -> option nat) (a : nat -> Action) : Action :=
  fun w => match ref (refs w) with
           | Some x => a x w
           | None => w
           end.

Definition withHooks (f : Hooks -> Hooks) : Action :=
  fun w => mkWorld (f (hooks w)) (refs w) (recognitions w) (intervals w)
             (nextInterval w) (mediaRequests w) (nextStream w) (nextContext w)
             (animationFrames w) (log w).

Definition withRefs (f : Refs -> Refs) : Action :=
  fun w => mkWorld (hooks w) (f (refs w)) (recognitions w) (intervals w)
             (nextInterval w) (mediaRequests w) (nextStream w) (nextContext w)
             (animationFrames w) (log w).

Definition withRecognitions (f : list Recognition -> list Recognition) : Action :=
  fun w => mkWorld (hooks w) (refs w) (f (recognitions w)) (intervals w)
             (nextInterval w) (mediaRequests w) (nextStream w) (nextContext w)
             (animationFrames w) (log w).

Definition withIntervals (f : list nat -> list nat) : Action :=
  fun w => mkWorld (hooks w) (refs w) (recognitions w) (f (intervals w))
             (nextInterval w) (mediaRequests w) (nextStream w) (nextContext w)
             (animationFrames w) (log w).

Definition withMediaRequests (f : list Hooks -> list Hooks) : Action :=
  fun w => mkWorld (hooks w) (refs w) (recognitions w) (intervals w)
             (nextInterval w) (f (mediaRequests w)) (nextStream w) (nextContext w)
             (animationFrames w) (log w).

Definition withAnimationFrames (f : list Hooks -> list Hooks) : Action :=
  fun w => mkWorld (hooks w) (refs w) (recognitions w) (intervals w)
             (nextInterval w) (mediaRequests w) (nextStream w) (nextContext w)
             (f (animationFrames w)) (log w).

Definition emit (e : Effect) : Action :=
  fun w => mkWorld (hooks w) (refs w) (recognitions w) (intervals w)
             (nextInterval w) (mediaRequests w) (nextStream w) (nextContext w)
             (animationFrames w) (log w ++ [e]).

(** The setters.  [setTranscript] and [setRecordingTime] take the updater
    form [prev => ...]; a plain value is the constant updater. *)
Definition setIsRecording (b : bool) : Action :=
  withHooks (fun h => mkHooks b (isPaused h) (transcript h)
                        (interimTranscript h) (audioLevel h) (recordingTime h)).

Definition setIsPaused (b : bool) : Action :=
  withHooks (fun h => mkHooks (isRecording h) b (transcript h)
                        (interimTranscript h) (audioLevel h) (recordingTime h)).

Definition setTranscript (f : string -> string) : Action :=
  withHooks (fun h => mkHooks (isRecording h) (isPaused h) (f (transcript h))
                        (interimTranscript h) (audioLevel h) (recordingTime h)).

Definition setInterimTranscript (s : string) : Action :=
  withHooks (fun h => mkHooks (isRecording h) (isPaused h) (transcript h)
                        s (audioLevel h) (recordingTime h)).

Definition setAudioLevel (x : float) : Action :=
  withHooks (fun h => mkHooks (isRecording h) (isPaused h) (transcript h)
                        (interimTranscript h) x (recordingTime h)).

Definition setRecordingTime (f : Z -> Z) : Action :=
  withHooks (fun h => mkHooks (isRecording h) (isPaused h) (transcript h)
                        (interimTranscript h) (audioLevel h) (f (recordingTime h))).

(** ** Platform operations the component calls *)

Fixpoint setListening (r : nat) (b : bool) (l : list Recognition) : list Recognition :=
  match l, r with
  | [], _ => []
  | o :: l', O => mkRecognition (handlers o) b :: l'
  | o :: l', S r' => o :: setListening r' b l'
  end.

(** [recognition.start()].  The platform raises [InvalidStateError] when
    the object is already listening; the component never does that: the
    object in [recognitionRef] is not listening when a click starts it
    ([started_object_is_idle] below), and [onend] runs after its object
    stopped listening. *)
Definition recognition_start (r : nat) : Action :=
  emit (RecognitionStart r) ;; withRecognitions (setListening r true).

(** [recognition.stop()]: a request; the object keeps delivering events
    until its [end] event.  On an object that is not listening the platform
    ignores the call. *)
Definition recognition_stop (r : nat) : Action :=
  emit (RecognitionStop r).

(** [navigator.mediaDevices.getUserMedia({ audio: true })], awaited by the
    [startAudioMonitoring] of render [c]. *)
Definition getUserMedia (c : Hooks) : Action :=
  emit GetUserMedia ;; withMediaRequests (fun l => l ++ [c]).

(** [timerRef.current = setInterval(..., 1000)] *)
Definition setInterval : Action :=
  fun w =>
    let t := nextInterval w in
    mkWorld (hooks w)
      (mkRefs (recognitionRef (refs w)) (Some t) (audioContextRef (refs w))
         (analyserRef (refs w)) (streamRef (refs w)))
      (recognitions w) (intervals w ++ [t]) (S t) (mediaRequests w)
      (nextStream w) (nextContext w) (animationFrames w)
      (log w ++ [SetInterval t]).

Definition clearInterval (t : nat) : Action :=
  emit (ClearInterval t) ;;
  withIntervals (filter (fun t' => negb (Nat.eqb t' t))).

(** [requestAnimationFrame(updateLevel)] for the [updateLevel] of render [c]. *)
Definition requestAnimationFrame (c : Hooks) : Action :=
  emit RequestAnimationFrame ;; withAnimationFrames (fun l => l ++ [c]).

(** ** Recognition results *)

(** One entry of [event.results]: its [isFinal] flag and the text of its
    first alternative, [event.results[i][0].transcript]. *)
Record SpeechRecognitionResult := mkResult {
  isFinal : bool;
  transcriptPart : string
}.

Record SpeechRecognitionEvent := mkEvent {
  resultIndex : nat;
  results : list SpeechRecognitionResult
}.

(** The body of the [for] loop of [onresult] on the pair [(interim, final)]. *)
Definition accumulate (acc : string * string) (r : SpeechRecognitionResult)
  : string * string :=
  let (interim, final) := acc in
  if isFinal r
  then (interim, (final ++ (transcriptPart r ++ " "))%string)
  else ((interim ++ transcriptPart r)%string, final).

(** [for (let i = event.resultIndex; i < event.results.length; i++)] *)
Definition batch (event : SpeechRecognitionEvent) : string * string :=
  fold_left accumulate (skipn (resultIndex event) (results event)) ("", "").

(** The world before the first render, with empty transcripts. *)
Definition blank : World :=
  mkWorld initialHooks (mkRefs None None None None None) [] [] 0 [] 0 0 [] [].

(** ** The host of the component *)

(** [ChatComponent] renders
    [<VoiceInput onTranscript={handleVoiceTranscript} onSend={handleVoiceSend} />]
    while [showVoiceInput] holds.  The handlers the voice input reaches are
    embedded: the two callbacks and the [handleSendMessage] that the
    timeout of [handleVoiceSend] calls, up to its [await]. *)
Module Chat.

Inductive Sender := user | assistant.

(** [{ type, content }] *)
Record Message := mkMessage {
  type : Sender;
  content : string
}.

(** The state cells these handlers read or write; [youtubeUrl] and
    [isProcessingYoutube] belong to [handleYoutubeSubmit] alone. *)
Record Hooks := mkHooks {
  messages : list Message;
  input : string;
  isSending : bool;
  showVoiceInput : bool
}.

(** [fetch(url, { method: 'POST', ..., body: JSON.stringify({ message }) })] *)
Inductive Output :=
| Fetch (url : string) (message : string).

Record World := mkWorld {
  hooks : Hooks;          (* the state React keeps *)
  timeouts : list Hooks;  (* pending [setTimeout] callbacks, each with the
                             render whose [handleSendMessage] it calls *)
  log : list Output
}.

Definition Action := World -> World.

(** The statements of a handler, in order. *)
Definition perform (l : list Action) : Action :=
  fun w => fold_left (fun v a => a v) l w.

Definition withHooks (f : Hooks -> Hooks) : Action :=
  fun w => mkWorld (f (hooks w)) (timeouts w) (log w).

Definition emit (o : Output) : Action :=
  fun w => mkWorld (hooks w) (timeouts w) (log w ++ [o]).

Definition setMessages (f : list Message -> list Message) : Action :=
  withHooks (fun h => mkHooks (f (messages h)) (input h) (isSending h)
                        (showVoiceInput h)).

Definition setInput (s : string) : Action :=
  withHooks (fun h => mkHooks (messages h) s (isSending h) (showVoiceInput h)).

Definition setIsSending (b : bool) : Action :=
  withHooks (fun h => mkHooks (messages h) (input h) b (showVoiceInput h)).

Definition setShowVoiceInput (b : bool) : Action :=
  withHooks (fun h => mkHooks (messages h) (input h) (isSending h) b).

(** [setTimeout(() => { handleSendMessage(); }, 100)] in render [c]. *)
Definition setTimeout (c : Hooks) : Action :=
  fun w => mkWorld (hooks w) (timeouts w ++ [c]) (log w).

(** [handleSendMessage] of render [c], up to its [await]: [input] and
    [messages] are the constants of [c]. *)
Definition handleSendMessage (c : Hooks) : Action :=
  if negb (JS.truthy (JS.trim (input c))) then perform []
  else
    perform
      [setMessages (fun _ => messages c ++ [mkMessage user (input c)]);
       setInput "";
       setIsSending true;
       emit (Fetch "http://localhost:8000/api/chat" (input c))].

Definition handleVoiceTranscript (transcript : string) : Action :=
  perform [setInput transcript; setShowVoiceInput false].

(** [handleVoiceSend] of render [c]: the [handleSendMessage] its timeout
    calls is the one of [c]. *)
Definition handleVoiceSend (c : Hooks) (transcript : string) : Action :=
  perform [setInput transcript; setShowVoiceInput false; setTimeout c].

(** The timeout [i] fires: its callback runs, or [None] when there is no
    such timeout. *)
Definition timeoutFired (i : nat) (w : World) : option World :=
  match nth_error (timeouts w) i with
  | Some c =>
      Some (handleSendMessage c
              (mkWorld (hooks w)
                 (firstn i (timeouts w) ++ skipn (S i) (timeouts w)) (log w)))
  | None => None
  end.

(** The props of the voice input, bound by render [c]: what a call of
    [onTranscript] or [onSend] does in the host. *)
Definition prop (c : Hooks) (e : Effect) : Action :=
  match e with
  | OnTranscript text => handleVoiceTranscript text
  | OnSend text => handleVoiceSend c text
  | _ => perform []
  end.

(** The host after the calls among the effects [l], in order. *)
Definition called (c : Hooks) (l : list Effect) : Action :=
  perform (map (prop c) l).

(** What the timeout of [handleVoiceSend] in render [c] leaves of a world
    [v1]: nothing changes when the input of [c] is blank; otherwise the
    input of [c] is appended to the messages of [c] and posted, and the
    input cell is emptied. *)
Definition sent (c : Hooks) (v1 : World) : Hooks * list Output :=
  if JS.truthy (JS.trim (input c))
  then (mkHooks (messages c ++ [mkMessage user (input c)]) "" true
          (showVoiceInput (hooks v1)),
        log v1 ++ [Fetch "http://localhost:8000/api/chat" (input c)])
  else (hooks v1, log v1).

End Chat.

(** ** The component *)

Section VoiceInput.

(** ['webkitSpeechRecognition' in window] *)
Variable speechSupported : bool.

(** Whether the host passed the optional [onSend] prop. *)
Variable onSendSupplied : bool.

(** *** The recognition handlers installed by the effect *)

(** [recognition.onresult]: it reads no constant of its render. *)
Definition onresult (event : SpeechRecognitionEvent) : Action :=
  let (interim, final) := batch event in
  if JS.truthy final
  then setTranscript (fun prev => (prev ++ final)%string) ;;
       setInterimTranscript ""
  else setInterimTranscript interim.

(** [stopRecording] of render [c]: the text it hands to the host is the
    [transcript] constant of [c]. *)
Definition stopRecording (c : Hooks) : Action :=
  setIsRecording false ;;
  setIsPaused false ;;
  setAudioLevel 0%float ;;
  whenRef recognitionRef recognition_stop ;;
  whenRef timerRef clearInterval ;;
  whenRef streamRef (fun s => emit (TracksStop s)) ;;
  whenRef audioContextRef (fun a => emit (ContextClose a)) ;;
  when (JS.truthy (JS.trim (transcript c)))
    (emit (OnTranscript (JS.trim (transcript c))) ;;
     when onSendSupplied (emit (OnSend (JS.trim (transcript c))))).

(** [recognition.onerror] installed by render [c]: the [stopRecording] it
    calls is the one of [c]. *)
Definition onerror (c : Hooks) (error : string) : Action :=
  emit (ConsoleError "Speech recognition error:" error) ;;
  if String.eqb error "no-speech" then skip else stopRecording c.

(** [recognition.onend] of object [r] installed by render [c]: it tests
    the [isRecording] and [isPaused] of [c]. *)
Definition onend (c : Hooks) (r : nat) : Action :=
  when (isRecording c && negb (isPaused c)) (recognition_start r).

(** *** The effect with dependencies [[isRecording, isPaused]] *)

(** The body of the effect creates a new recognition object, gives it the
    three handlers above, closed over the render [c] that runs the effect,
    and stores it in [recognitionRef]; it does not start it.  The cleanup
    stops the object that [recognitionRef] holds at that time, which is the
    one of the previous run of the effect. *)

Definition effect_setup (c : Hooks) : Action :=
  fun w =>
    if speechSupported
    then
      let r := List.length (recognitions w) in
      (withRecognitions (fun l => l ++ [mkRecognition c false]) ;;
       withRefs (fun f => mkRefs (Some r) (timerRef f) (audioContextRef f)
                            (analyserRef f) (streamRef f))) w
    else
      (emit (ConsoleError "Speech recognition not supported" "") ;;
       emit (Alert "Voice input is not supported in your browser. Please use Chrome or Edge.")) w.

Definition effect_cleanup : Action :=
  whenRef recognitionRef recognition_stop.

Definition sameDeps (a b : Hooks) : bool :=
  Bool.eqb (isRecording a) (isRecording b) && Bool.eqb (isPaused a) (isPaused b).

(** The render that follows an event whose handlers ran from render
    [prev].  The state updates of one event are applied together; when
    [isRecording] or [isPaused] changed, the cleanup of the previous effect
    runs, then the effect of the new render.  A change of [transcript]
    alone renders again but does not run the effect: the handlers of the
    recognition objects keep the [transcript] of the render that installed
    them. *)
Definition commit (prev : Hooks) : Action :=
  fun w =>
    if sameDeps prev (hooks w) then w
    else (effect_cleanup ;; effect_setup (hooks w)) w.

(** *** Audio level monitoring *)

(** [updateLevel] of render [c], with the bytes [getByteFrequencyData]
    wrote into [dataArray].  [isRecording] and [isPaused] are the constants
    of the render whose [startRecording] called [startAudioMonitoring];
    [requestAnimationFrame(updateLevel)] schedules this same closure, so
    every later tick reads the same two values. *)
Definition updateLevel (c : Hooks) (dataArray : list byte) : Action :=
  if negb (isRecording c) || isPaused c then skip
  else
    match level dataArray with
    | Some x => setAudioLevel x ;; requestAnimationFrame c
    | None => skip
    end.

(** [startAudioMonitoring] after [getUserMedia] resolved. *)
Definition startAudioMonitoring_resolved (c : Hooks) (dataArray : list byte) : Action :=
  (fun w =>
     mkWorld (hooks w)
       (mkRefs (recognitionRef (refs w)) (timerRef (refs w))
          (Some (nextContext w)) (Some (nextContext w)) (Some (nextStream w)))
       (recognitions w) (intervals w) (nextInterval w) (mediaRequests w)
       (S (nextStream w)) (S (nextContext w)) (animationFrames w) (log w)) ;;
  updateLevel c dataArray.

(** [startAudioMonitoring] after [getUserMedia] rejected: the [catch]. *)
Definition startAudioMonitoring_rejected : Action :=
  emit (ConsoleError "Error accessing microphone:" "") ;;
  emit (Alert "Could not access microphone. Please grant permission.").

(** *** The controls *)

(** [startRecording] of render [c], up to its [await]. *)
Definition startRecording (c : Hooks) : Action :=
  fun w =>
    match recognitionRef (refs w) with
    | None => emit (Alert "Speech recognition not available") w
    | Some r =>
        (setIsRecording true ;;
         setIsPaused false ;;
         setTranscript (fun _ => "") ;;
         setInterimTranscript "" ;;
         setRecordingTime (fun _ => 0) ;;
         recognition_start r ;;
         getUserMedia c) w
    end.

(** [startRecording] after its [await]: the timer. *)
Definition startRecording_resumed : Action :=
  setInterval.

(** The callback of [setInterval]. *)
Definition tick : Action :=
  setRecordingTime (fun prev => prev + 1).

Definition pauseRecording : Action :=
  setIsPaused true ;;
  whenRef recognitionRef recognition_stop.

Definition resumeRecording : Action :=
  setIsPaused false ;;
  whenRef recognitionRef recognition_start.

Definition clearTranscript : Action :=
  setTranscript (fun _ => "") ;;
  setInterimTranscript "".

(** [formatTime(seconds)], called with [recordingTime]: the quotient is a
    division of numbers, rounded down; the remainder of [%] has the sign
    of [seconds]. *)
Definition formatTime (seconds : Z) : string :=
  let mins := JS.Math_floor (PrimFloat.div (JS.number seconds) 60%float) in
  let secs := Z.rem seconds 60 in
  (JS.padStart 2 "0" (JS.toString mins) ++ ":" ++
   JS.padStart 2 "0" (JS.toString secs))%string.

(** *** The audio visualizer of the JSX *)

(** The width of the level bar, in percent: [`${audioLevel}%`]. *)
Definition levelBarWidth (c : Hooks) : float := audioLevel c.

(** The height of one bar of the waveform, in percent:
    [`${isPaused ? 20 : Math.random() * audioLevel + 20}%`], for the number
    [random] that [Math.random()] returned. *)
Definition waveBarHeight (c : Hooks) (random : float) : float :=
  if isPaused c then 20%float
  else PrimFloat.add (PrimFloat.mul random (audioLevel c)) 20%float.

(** *** Events *)

Inductive Button := Start | Pause | Resume | Clear | Stop.

(** The buttons the JSX of a render shows. *)
Definition shown (h : Hooks) (b : Button) : bool :=
  match b with
  | Start => negb (isRecording h)
  | Pause => isRecording h && negb (isPaused h)
  | Resume => isRecording h && isPaused h
  | Clear => isRecording h
  | Stop => isRecording h
  end.

Definition onClick (b : Button) (c : Hooks) : Action :=
  match b with
  | Start => startRecording c
  | Pause => pauseRecording
  | Resume => resumeRecording
  | Clear => clearTranscript
  | Stop => stopRecording c
  end.

Inductive Event :=
| Click (b : Button)
| Result (r : nat) (event : SpeechRecognitionEvent)
| Error (r : nat) (error : string)
| End (r : nat)
| MediaResolved (i : nat) (dataArray : list byte)
| MediaRejected (i : nat)
| AnimationFrame (i : nat) (dataArray : list byte)
| IntervalTick (t : nat).

Fixpoint remove_nth {A} (i : nat) (l : list A) : list A :=
  match l, i with
  | [], _ => []
  | _ :: l', O => l'
  | x :: l', S i' => x :: remove_nth i' l'
  end.

(** The recognition object [r], when it is listening. *)
Definition listener (w : World) (r : nat) : option Hooks :=
  match nth_error (recognitions w) r with
  | Some o => if listening o then Some (handlers o) else None
  | None => None
  end.

(** The handler an event runs, or [None] when the event cannot happen in
    [w].  A click runs the handler of the render on screen, which saw the
    state [hooks w]; a recognition event runs the handler of the render
    that created the object; a settled promise and an animation frame
    resume the closure that was waiting. *)
Definition handle (e : Event) (w : World) : option World :=
  match e with
  | Click b =>
      if shown (hooks w) b then Some (onClick b (hooks w) w) else None
  | Result r event =>
      match listener w r with
      | Some _ => Some (onresult event w)
      | None => None
      end
  | Error r error =>
      match listener w r with
      | Some c => Some (onerror c error w)
      | None => None
      end
  | End r =>
      match listener w r with
      | Some c => Some ((withRecognitions (setListening r false) ;; onend c r) w)
      | None => None
      end
  | MediaResolved i dataArray =>
      match nth_error (mediaRequests w) i with
      | Some c =>
          if Nat.eqb (List.length dataArray) bufferLength
          then Some ((withMediaRequests (remove_nth i) ;;
                      startAudioMonitoring_resolved c dataArray ;;
                      startRecording_resumed) w)
          else None
      | None => None
      end
  | MediaRejected i =>
      match nth_error (mediaRequests w) i with
      | Some _ =>
          Some ((withMediaRequests (remove_nth i) ;;
                 startAudioMonitoring_rejected ;;
                 startRecording_resumed) w)
      | None => None
      end
  | AnimationFrame i dataArray =>
      match nth_error (animationFrames w) i with
      | Some c =>
          if Nat.eqb (List.length dataArray) bufferLength
          then Some ((withAnimationFrames (remove_nth i) ;;
                      updateLevel c dataArray) w)
          else None
      | None => None
      end
  | IntervalTick t =>
      if existsb (Nat.eqb t) (intervals w) then Some (tick w) else None
  end.

(** One event: its handler, then the render and the effect. *)
Definition step (w : World) (e : Event) : option World :=
  option_map (commit (hooks w)) (handle e w).

Fixpoint run (w : World) (es : list Event) : option World :=
  match es with
  | [] => Some w
  | e :: es' =>
      match step w e with
      | Some w' => run w' es'
      | None => None
      end
  end.

(** The component after its first render and effect. *)
Definition mount : World :=
  effect_setup initialHooks blank.

Definition reachable (w : World) : Prop :=
  exists es, run mount es = Some w.

(** ** Vocabulary of the statements *)

(** The final and the interim text of a list of results, as the loop of
    [onresult] builds them. *)
Definition finalText (rs : list SpeechRecognitionResult) : string :=
  String.concat "" (map (fun r => (transcriptPart r ++ " ")%string) (filter isFinal rs)).

Definition interimText (rs : list SpeechRecognitionResult) : string :=
  String.concat "" (map transcriptPart (filter (fun r => negb (isFinal r)) rs)).

(** A batch made of one final result, and one made of one interim result. *)
Definition final (text : string) : SpeechRecognitionEvent :=
  mkEvent 0 [mkResult true text].

Definition interim (text : string) : SpeechRecognitionEvent :=
  mkEvent 0 [mkResult false text].

(** The effects an event added to the log. *)
Definition emitted (w w' : World) : list Effect :=
  skipn (List.length (log w)) (log w').

(** The calls of the host's props. *)
Definition isCallback (e : Effect) : bool :=
  match e with
  | OnTranscript _ | OnSend _ => true
  | _ => false
  end.

Definition callbacks (l : list Effect) : list Effect := filter isCallback l.

Definition ofRef (ref : option nat) (f : nat -> Effect) : list Effect :=
  match ref with
  | Some x => [f x]
  | None => []
  end.

(** What [stopRecording] releases, read off the refs: the recognition
    object, the timer, the tracks of the stream, the audio context. *)
Definition teardown (f : Refs) : list Effect :=
  ofRef (recognitionRef f) RecognitionStop ++
  ofRef (timerRef f) ClearInterval ++
  ofRef (streamRef f) TracksStop ++
  ofRef (audioContextRef f) ContextClose.

(** What [stopRecording] hands to the host for a transcript [t]. *)
Definition handover (t : string) : list Effect :=
  if JS.truthy (JS.trim t)
  then OnTranscript (JS.trim t) ::
       (if onSendSupplied then [OnSend (JS.trim t)] else [])
  else [].

(** The events that run [updateLevel]. *)
Definition samplingTick (e : Event) : bool :=
  match e with
  | MediaResolved _ _ | AnimationFrame _ _ => true
  | _ => false
  end.

(** The events that run [stopRecording]. *)
Definition stops (e : Event) : bool :=
  match e with
  | Click Stop => true
  | Error _ error => negb (String.eqb error "no-speech")
  | _ => false
  end.

(** The effects that only [stopRecording] has: the calls of the host's
    props and the release of the timer, the tracks and the audio context. *)
Definition isRelease (e : Effect) : bool :=
  match e with
  | ClearInterval _ | TracksStop _ | ContextClose _ => true
  | _ => false
  end.

Definition calm (e : Effect) : bool := negb (isCallback e || isRelease e).

(** The effects of the cleanup and of the body of the [useEffect]. *)
Definition ofEffect (e : Effect) : bool :=
  match e with
  | RecognitionStop _ | ConsoleError _ _ | Alert _ => true
  | _ => false
  end.

(** The state cells after [stopRecording]. *)
Definition stopped (h : Hooks) : Hooks :=
  mkHooks false false (transcript h) (interimTranscript h) 0%float
    (recordingTime h).

(** The state cells after one sampling tick of the [updateLevel] of
    render [c]. *)
Definition sampled (c : Hooks) (dataArray : list byte) (h : Hooks) : Hooks :=
  if negb (isRecording c) || isPaused c then h
  else match level dataArray with
       | Some x => mkHooks (isRecording h) (isPaused h) (transcript h)
                     (interimTranscript h) x (recordingTime h)
       | None => h
       end.

(** The state cells an event leaves, read off the handlers. *)
Definition nextHooks (e : Event) (w : World) : Hooks :=
  let h := hooks w in
  match e with
  | Click Start =>
      match recognitionRef (refs w) with
      | Some _ => mkHooks true false "" "" (audioLevel h) 0
      | None => h
      end
  | Click Pause =>
      mkHooks (isRecording h) true (transcript h) (interimTranscript h)
        (audioLevel h) (recordingTime h)
  | Click Resume =>
      mkHooks (isRecording h) false (transcript h) (interimTranscript h)
        (audioLevel h) (recordingTime h)
  | Click Clear =>
      mkHooks (isRecording h) (isPaused h) "" "" (audioLevel h)
        (recordingTime h)
  | Click Stop => stopped h
  | Result _ event =>
      if JS.truthy (snd (batch event))
      then mkHooks (isRecording h) (isPaused h)
             (transcript h ++ snd (batch event))%string ""
             (audioLevel h) (recordingTime h)
      else mkHooks (isRecording h) (isPaused h) (transcript h)
             (fst (batch event)) (audioLevel h) (recordingTime h)
  | Error _ error =>
      if String.eqb error "no-speech" then h else stopped h
  | End _ => h
  | MediaResolved i dataArray =>
      match nth_error (mediaRequests w) i with
      | Some c => sampled c dataArray h
      | None => h
      end
  | MediaRejected _ => h
  | AnimationFrame i dataArray =>
      match nth_error (animationFrames w) i with
      | Some c => sampled c dataArray h
      | None => h
      end
  | IntervalTick _ =>
      mkHooks (isRecording h) (isPaused h) (transcript h)
        (interimTranscript h) (audioLevel h) (recordingTime h + 1)
  end.

(** The world after [clearTranscript]: the two transcripts are empty and
    every other component is the one of [w]. *)
Definition cleared (w : World) : World :=
  mkWorld
    (mkHooks (isRecording (hooks w)) (isPaused (hooks w)) "" ""
       (audioLevel (hooks w)) (recordingTime (hooks w)))
    (refs w) (recognitions w) (intervals w) (nextInterval w)
    (mediaRequests w) (nextStream w) (nextContext w) (animationFrames w)
    (log w).

(** No sample was stored and no sampling tick can store one: the level
    is 0, every [startAudioMonitoring] still waiting for the microphone
    belongs to a render that saw [isRecording] false, and no [updateLevel]
    is scheduled. *)
Definition quiet (w : World) : Prop :=
  audioLevel (hooks w) = 0%float /\
  Forall (fun c => isRecording c = false) (mediaRequests w) /\
  animationFrames w = [].

(** The recording time is not negative, and a component that never got a
    recognition object never started a timer. *)
Definition timed (w : World) : Prop :=
  0 <= recordingTime (hooks w) /\
  (recognitionRef (refs w) = None ->
   recordingTime (hooks w) = 0 /\ intervals w = [] /\ mediaRequests w = []).

(** The timers left by [clearInterval(timerRef.current)]. *)
Definition cleared_intervals (w : World) : list nat :=
  match timerRef (refs w) with
  | Some t => filter (fun t' => negb (Nat.eqb t' t)) (intervals w)
  | None => intervals w
  end.

(** A frequency snapshot: every bin at half scale. *)
Definition halfScale : list byte := repeat Byte.x80 bufferLength.

(** A session with a pause, stopped by the button: the microphone is
    granted, one result is finalized, then Pause, Resume and Stop. *)
Definition pausedSession : list Event :=
  [Click Start; MediaResolved 0 halfScale; Result 0 (final "hi");
   Click Pause; Click Resume; Click Stop].

(** The test of [onend] on the constants of render [c]. *)
Definition restarts (c : Hooks) : bool := isRecording c && negb (isPaused c).

(** No listening object would restart itself, and the object in
    [recognitionRef] is not listening and was installed by a render that
    saw the present [isRecording] and [isPaused]. *)
Definition stale (w : World) : Prop :=
  (speechSupported = false -> recognitionRef (refs w) = None) /\
  Forall (fun o => listening o = true -> restarts (handlers o) = false)
    (recognitions w) /\
  (forall k, recognitionRef (refs w) = Some k ->
             exists o, nth_error (recognitions w) k = Some o /\
                       sameDeps (handlers o) (hooks w) = true /\
                       listening o = false).

(** What a handler leaves of [stale] before the render that follows it:
    [recognitionRef] holds the same object, that object still matches the
    flags of the render the handler ran from, and it is listening only if
    these flags changed, so that the effect is about to replace it. *)
Definition carried (w w0 : World) : Prop :=
  recognitionRef (refs w0) = recognitionRef (refs w) /\
  Forall (fun o => listening o = true -> restarts (handlers o) = false)
    (recognitions w0) /\
  (forall k, recognitionRef (refs w) = Some k ->
             exists o, nth_error (recognitions w0) k = Some o /\
                       sameDeps (handlers o) (hooks w) = true /\
                       (sameDeps (hooks w) (hooks w0) = true ->
                        listening o = false)).

(** The recognition objects an event leaves, read off the handlers. *)
Definition nextRecognitions (e : Event) (w : World) : list Recognition :=
  match e with
  | Click Start | Click Resume =>
      match recognitionRef (refs w) with
      | Some k => setListening k true (recognitions w)
      | None => recognitions w
      end
  | End r =>
      match listener w r with
      | Some c =>
          if restarts c
          then setListening r true (setListening r false (recognitions w))
          else setListening r false (recognitions w)
      | None => recognitions w
      end
  | _ => recognitions w
  end.

(** The effects of one tick of the [updateLevel] of render [c]. *)
Definition sampledEffects (c : Hooks) (dataArray : list byte) : list Effect :=
  if negb (isRecording c) || isPaused c then []
  else match level dataArray with
       | Some _ => [RequestAnimationFrame]
       | None => []
       end.

(** The effects of the handler of an event, read off the handlers. *)
Definition effectsOf (e : Event) (w : World) : list Effect :=
  match e with
  | Click Start =>
      match recognitionRef (refs w) with
      | Some k => [RecognitionStart k; GetUserMedia]
      | None => [Alert "Speech recognition not available"]
      end
  | Click Pause => ofRef (recognitionRef (refs w)) RecognitionStop
  | Click Resume => ofRef (recognitionRef (refs w)) RecognitionStart
  | Click Clear => []
  | Click Stop => teardown (refs w) ++ handover (transcript (hooks w))
  | Result _ _ => []
  | Error r error =>
      ConsoleError "Speech recognition error:" error ::
      (if String.eqb error "no-speech" then []
       else match listener w r with
            | Some c => teardown (refs w) ++ handover (transcript c)
            | None => []
            end)
  | End r =>
      match listener w r with
      | Some c => if restarts c then [RecognitionStart r] else []
      | None => []
      end
  | MediaResolved i dataArray =>
      match nth_error (mediaRequests w) i with
      | Some c => sampledEffects c dataArray ++ [SetInterval (nextInterval w)]
      | None => []
      end
  | MediaRejected _ =>
      [ConsoleError "Error accessing microphone:" "";
       Alert "Could not access microphone. Please grant permission.";
       SetInterval (nextInterval w)]
  | AnimationFrame i dataArray =>
      match nth_error (animationFrames w) i with
      | Some c => sampledEffects c dataArray
      | None => []
      end
  | IntervalTick _ => []
  end.

(** The effects of the render that follows the handler of [e]: when
    [isRecording] or [isPaused] changed, the cleanup stops the object in
    [recognitionRef], and the body of the effect reports a browser without
    speech recognition. *)
Definition renderEffects (e : Event) (w : World) : list Effect :=
  if sameDeps (hooks w) (nextHooks e w) then []
  else ofRef (recognitionRef (refs w)) RecognitionStop ++
       (if speechSupported then []
        else [ConsoleError "Speech recognition not supported" "";
              Alert "Voice input is not supported in your browser. Please use Chrome or Edge."]).

(** The timer bookkeeping an event leaves: [timerRef], the next timer id
    and the timers that run.  Only the continuation of [startRecording]
    after its [await] sets a timer, and it does so on both outcomes of
    [getUserMedia]. *)
Definition nextTimers (e : Event) (w : World) : option nat * nat * list nat :=
  match e with
  | MediaResolved _ _ | MediaRejected _ =>
      (Some (nextInterval w), S (nextInterval w),
       intervals w ++ [nextInterval w])
  | _ =>
      (timerRef (refs w), nextInterval w,
       if stops e then cleared_intervals w else intervals w)
  end.

(** Timer ids are handed out in increasing order. *)
Definition ordered (w : World) : Prop :=
  Forall (fun t => (t < nextInterval w)%nat) (intervals w) /\
  (forall t, timerRef (refs w) = Some t -> (t < nextInterval w)%nat).

(** [recognitionRef] holds the object the effect created last. *)
Definition installed (w : World) : Prop :=
  recognitionRef (refs w) = Some (Nat.pred (List.length (recognitions w))) /\
  recognitions w <> [].

(** The effects of a click that starts the recognition object [k]: the
    calls of the handler, then the cleanup of the effect that the change of
    [isRecording] or [isPaused] triggers. *)
Definition startedThenStopped (b : Button) (k : nat) : list Effect :=
  match b with
  | Start => [RecognitionStart k; GetUserMedia; RecognitionStop k]
  | _ => [RecognitionStart k; RecognitionStop k]
  end.

Definition isResult (e : Event) : bool :=
  match e with
  | Result _ _ => true
  | _ => false
  end.

(** The text a result event finalizes. *)
Definition finalized (e : Event) : string :=
  match e with
  | Result _ event => finalText (skipn (resultIndex event) (results event))
  | _ => ""
  end.

(** The state of a component that never got a recognition object. *)
Definition idle (w : World) : Prop :=
  hooks w = initialHooks /\
  refs w = mkRefs None None None None None /\
  recognitions w = [] /\
  intervals w = [] /\
  mediaRequests w = [] /\
  animationFrames w = [].

(** The log of a browser without speech recognition after [n] clicks on
    Start. *)
Definition unsupportedLog (n : nat) : list Effect :=
  [ConsoleError "Speech recognition not supported" "";
   Alert "Voice input is not supported in your browser. Please use Chrome or Edge."]
  ++ repeat (Alert "Speech recognition not available") n.

(** Reads a log from the left: [pending] is the text of an [onTranscript]
    call that still waits for its [onSend].  The log passes when every
    [onTranscript] has a text that is not empty and is its own trim, is
    followed at once by an [onSend] of the same text when the host
    supplied [onSend], and no other [onSend] occurs. *)
Fixpoint paired (pending : option string) (l : list Effect) : bool :=
  match l with
  | [] => match pending with
          | None => true
          | Some _ => false
          end
  | x :: l' =>
      match pending, x with
      | None, OnTranscript t =>
          JS.truthy t && String.eqb (JS.trim t) t &&
          paired (if onSendSupplied then Some t else None) l'
      | None, OnSend _ => false
      | None, _ => paired None l'
      | Some t, OnSend t' => String.eqb t' t && paired None l'
      | Some _, _ => false
      end
  end.

(** Reading a display back: the text before the first colon and the text
    after it, as decimal numbers of minutes and seconds. *)
Fixpoint untilColon (s : string) : option (string * string) :=
  match s with
  | EmptyString => None
  | String c r =>
      if Ascii.eqb c ":" then Some (EmptyString, r)
      else match untilColon r with
           | Some (a, b) => Some (String c a, b)
           | None => None
           end
  end.

Definition readTime (s : string) : option Z :=
  match untilColon s with
  | Some (m, r) =>
      match NilZero.int_of_string m, NilZero.int_of_string r with
      | Some a, Some b => Some (Z.of_int a * 60 + Z.of_int b)
      | _, _ => None
      end
  | None => None
  end.

(** One day of recording, in seconds. *)
Definition oneDay : Z := 86400.

(** The media bookkeeping an event leaves: [streamRef], the next stream
    id, [audioContextRef] and the next context id.  Only a granted
    [getUserMedia] changes them. *)
Definition nextMedia (e : Event) (w : World)
  : option nat * nat * option nat * nat :=
  match e with
  | MediaResolved _ _ =>
      (Some (nextStream w), S (nextStream w),
       Some (nextContext w), S (nextContext w))
  | _ =>
      (streamRef (refs w), nextStream w,
       audioContextRef (refs w), nextContext w)
  end.

(** Start, Stop and Start again before the microphone was granted, then
    both grants: two timers, two streams and two audio contexts, of which
    the refs hold the second. *)
Definition doubleGrant : list Event :=
  [Click Start; Click Stop; Click Start;
   MediaResolved 0 halfScale; MediaResolved 0 halfScale].

(** [p] holds of the [n] integers from [z] on. *)
Fixpoint allFrom (n : nat) (z : Z) (p : Z -> bool) : bool :=
  match n with
  | O => true
  | S k => p z && allFrom k (z + 1) p
  end.

(** * Properties *)

(** ** Strings *)

Lemma append_empty_r (s : string) : (s ++ "")%string = s.
Proof. induction s as [|c s IH]; simpl; [reflexivity | now rewrite IH]. Qed.

Lemma append_assoc (a b c : string) :
  ((a ++ b) ++ c)%string = (a ++ (b ++ c))%string.
Proof. induction a as [|x a IH]; simpl; [reflexivity | now rewrite IH]. Qed.

(** ** Recognition result batches *)

Lemma concat_cons (s : string) (l : list string) :
  String.concat "" (s :: l) = (s ++ String.concat "" l)%string.
Proof.
  destruct l as [|t l]; simpl.
  - now rewrite append_empty_r.
  - reflexivity.
Qed.

Lemma accumulate_fold (rs : list SpeechRecognitionResult) (interim final : string) :
  fold_left accumulate rs (interim, final)
  = ((interim ++ interimText rs)%string, (final ++ finalText rs)%string).
Proof.
  revert interim final.
  induction rs as [|r rs IH]; intros interim final.
  - simpl. now rewrite !append_empty_r.
  - cbn [fold_left]. unfold accumulate at 2.
    unfold finalText, interimText in *. cbn [filter].
    destruct (isFinal r); cbn [negb map]; rewrite IH, ?concat_cons, ?append_assoc;
      reflexivity.
Qed.

Lemma batch_texts (event : SpeechRecognitionEvent) :
  batch event
  = (interimText (skipn (resultIndex event) (results event)),
     finalText (skipn (resultIndex event) (results event))).
Proof. unfold batch. now rewrite accumulate_fold. Qed.

Lemma finalText_truthy (rs : list SpeechRecognitionResult) :
  JS.truthy (finalText rs) = existsb isFinal rs.
Proof.
  unfold finalText.
  induction rs as [|r rs IH]; [reflexivity|].
  cbn [filter existsb]. destruct (isFinal r) eqn:F; cbn [orb map].
  - rewrite concat_cons, append_assoc. destruct (transcriptPart r); reflexivity.
  - exact IH.
Qed.

Lemma interimText_no_final (rs : list SpeechRecognitionResult) :
  existsb isFinal rs = false ->
  interimText rs = String.concat "" (map transcriptPart rs).
Proof.
  unfold interimText. induction rs as [|r rs IH]; [reflexivity|].
  cbn [existsb filter map]. intros H. apply orb_false_iff in H as [F H].
  rewrite F. cbn [negb map]. rewrite !concat_cons, IH by exact H. reflexivity.
Qed.

(** C2, as stated, at the texts of its example: the final texts ["hello "]
    and ["world "] each receive the separator of [onresult], so the
    finalized transcript is ["hello  world  "], with doubled blanks, and not
    ["hello world "]. *)
Lemma onresult_example_as_stated :
  let w := onresult (final "world ")
             (onresult (interim "wor") (onresult (final "hello ") blank)) in
  transcript (hooks w) = "hello  world  " /\
  transcript (hooks w) <> "hello world ".
Proof. split; [reflexivity | discriminate]. Qed.

(** C2 (amended): a batch with a final result among the results from
    [resultIndex] on appends the text of each final result followed by one
    blank to [transcript] (for a single final result with text [s]:
    [transcript ++ s ++ " "]) and sets [interimTranscript] to the empty
    string; a batch with no final result replaces [interimTranscript] by
    the concatenation of its texts, whatever [interimTranscript] held, and
    leaves [transcript] as it was.  From empty transcripts the batches
    final "hello", interim "wor", final "world" leave [transcript] equal to
    ["hello world "] and [interimTranscript] empty. *)
Theorem onresult_batches :
  (forall (event : SpeechRecognitionEvent) (w : World),
      let rs := skipn (resultIndex event) (results event) in
      (existsb isFinal rs = true ->
       transcript (hooks (onresult event w))
       = (transcript (hooks w) ++ finalText rs)%string /\
       interimTranscript (hooks (onresult event w)) = "") /\
      (existsb isFinal rs = false ->
       interimTranscript (hooks (onresult event w))
       = String.concat "" (map transcriptPart rs) /\
       transcript (hooks (onresult event w)) = transcript (hooks w))) /\
  (forall (s : string) (w : World),
      transcript (hooks (onresult (final s) w))
      = (transcript (hooks w) ++ (s ++ " "))%string /\
      interimTranscript (hooks (onresult (final s) w)) = "") /\
  (forall (s : string) (w : World),
      interimTranscript (hooks (onresult (interim s) w)) = s /\
      transcript (hooks (onresult (interim s) w)) = transcript (hooks w)) /\
  (let w := onresult (final "world")
              (onresult (interim "wor") (onresult (final "hello") blank)) in
   transcript (hooks w) = "hello world " /\ interimTranscript (hooks w) = "").
Proof.
  assert (G : forall event w,
             let rs := skipn (resultIndex event) (results event) in
             (existsb isFinal rs = true ->
              transcript (hooks (onresult event w))
              = (transcript (hooks w) ++ finalText rs)%string /\
              interimTranscript (hooks (onresult event w)) = "") /\
             (existsb isFinal rs = false ->
              interimTranscript (hooks (onresult event w))
              = String.concat "" (map transcriptPart rs) /\
              transcript (hooks (onresult event w)) = transcript (hooks w))).
  { intros event w rs. unfold onresult. rewrite batch_texts. fold rs.
    rewrite finalText_truthy.
    split; intros E; rewrite E; split; try reflexivity.
    cbn. now apply interimText_no_final. }
  split; [exact G|].
  split.
  { intros s w. destruct (G (final s) w) as [F _]. apply F. reflexivity. }
  split.
  { intros s w. destruct (G (interim s) w) as [_ I].
    destruct I as [I1 I2]; [reflexivity|]. split; [|exact I2].
    rewrite I1. cbn. reflexivity. }
  split; reflexivity.
Qed.

(** The general part of [onresult_batches] at a concrete batch that holds
    an interim and a final result. *)
Lemma onresult_batches_witness :
  transcript (hooks (onresult (mkEvent 1 [mkResult true "skipped";
                                          mkResult false "wo";
                                          mkResult true "hello"]) blank))
  = ("" ++ "hello ")%string /\
  interimTranscript (hooks (onresult (mkEvent 1 [mkResult true "skipped";
                                                 mkResult false "wo";
                                                 mkResult true "hello"]) blank))
  = "".
Proof.
  exact (proj1 (proj1 onresult_batches
                  (mkEvent 1 [mkResult true "skipped"; mkResult false "wo";
                              mkResult true "hello"]) blank) eq_refl).
Defined.

(** ** The level of a sampling tick *)

Lemma allFrom_spec (n : nat) (p : Z -> bool) :
  forall z, allFrom n z p = true ->
            forall k, z <= k < z + Z.of_nat n -> p k = true.
Proof.
  induction n as [|n IH]; intros z H k Hk.
  - lia.
  - cbn [allFrom] in H. apply andb_true_iff in H as [Hz Hrest].
    destruct (Z.eq_dec k z) as [->|Hne]; [exact Hz|].
    apply (IH (z + 1) Hrest). lia.
Qed.

Lemma byteValue_range (b : byte) : 0 <= byteValue b <= 255.
Proof.
  unfold byteValue. pose proof (Byte.to_N_bounded b). lia.
Qed.

Lemma sum_range (l : list byte) :
  forall a, 0 <= a ->
            a <= fold_left Z.add (map byteValue l) a
            <= a + 255 * Z.of_nat (List.length l).
Proof.
  induction l as [|b l IH]; intros a Ha.
  - cbn. lia.
  - cbn [map fold_left List.length]. pose proof (byteValue_range b) as Hb.
    specialize (IH (a + byteValue b) ltac:(lia)). lia.
Qed.

(** Every sum that [bufferLength] bytes can have, checked one by one on
    the floating-point operations themselves. *)
Lemma levelOfSum_checked :
  allFrom (Z.to_nat (255 * Z.of_nat bufferLength + 1)) 0
    (fun sum => inUnitPercent (levelOfSum sum)) = true.
Proof. vm_compute. reflexivity. Qed.

Lemma level_range (dataArray : list byte) (x : float) :
  List.length dataArray = bufferLength ->
  level dataArray = Some x ->
  inUnitPercent x = true.
Proof.
  intros Hlen Hx. unfold level, JS.reduce_add in Hx.
  destruct dataArray as [|b l]; [discriminate|].
  cbn [map option_map] in Hx. injection Hx as <-.
  pose proof (byteValue_range b) as Hb.
  pose proof (sum_range l (byteValue b) (proj1 Hb)) as Hs.
  cbn [List.length] in Hlen.
  apply (allFrom_spec _ _ 0 levelOfSum_checked).
  rewrite Z2Nat.id by lia. rewrite <- Hlen. lia.
Qed.

Lemma level_defined (dataArray : list byte) :
  List.length dataArray = bufferLength -> exists x, level dataArray = Some x.
Proof.
  destruct dataArray as [|b l]; [discriminate|].
  intros _. eexists. reflexivity.
Qed.

(** ** Evaluating the handlers *)

(** Handlers are evaluated on a world given by its fields, innermost
    action first. *)
Ltac eval_actions :=
  cbv beta iota zeta delta
    [onClick stopRecording onerror onend startRecording
     startRecording_resumed tick pauseRecording resumeRecording
     clearTranscript updateLevel startAudioMonitoring_resolved
     startAudioMonitoring_rejected effect_cleanup effect_setup commit sameDeps
     Bool.eqb andb orb negb
     recognition_start recognition_stop getUserMedia setInterval
     clearInterval requestAnimationFrame setIsRecording setIsPaused
     setTranscript setInterimTranscript setAudioLevel setRecordingTime
     when whenRef seq_action skip emit withHooks withRefs
     withRecognitions withIntervals withMediaRequests withAnimationFrames
     hooks refs recognitions intervals nextInterval mediaRequests nextStream
     nextContext animationFrames log
     isRecording isPaused transcript interimTranscript audioLevel recordingTime
     recognitionRef timerRef audioContextRef analyserRef streamRef
     teardown ofRef].

Ltac open_world w :=
  let h := fresh "h" in
  let f := fresh "f" in
  destruct w as [h f ? ? ? ? ? ? ? ?];
  destruct h as [? ? ? ? ? ?];
  destruct f as [? ? ? ? ?].

Ltac case_refs :=
  repeat match goal with
         | x : option nat |- context [mkRefs _ _ _ ?a _] =>
             tryif constr_eq x a then fail else destruct x
         end.

Ltac case_ref x := destruct x as [?|].

Ltac open_hooks c := destruct c as [? ? ? ? ? ?].

(** Evaluation, using the recorded values of the conditions it meets. *)
Ltac use_conditions :=
  repeat match goal with
         | H : ?x = true |- context [?x] => progress rewrite H
         | H : ?x = false |- context [?x] => progress rewrite H
         | H : ?x = Some _ |- context [?x] => progress rewrite H
         | H : ?x = None |- context [?x] => progress rewrite H
         end.

Ltac settle := repeat progress (eval_actions; use_conditions).

Lemma emitted_app (w w' : World) (l : list Effect) :
  log w' = log w ++ l -> emitted w w' = l.
Proof.
  intros H. unfold emitted. rewrite H. clear H.
  induction (log w) as [|x lg IH]; [reflexivity | exact IH].
Qed.

Lemma callbacks_app (a b : list Effect) :
  callbacks (a ++ b) = callbacks a ++ callbacks b.
Proof. unfold callbacks. apply filter_app. Qed.

Lemma callbacks_handover (t : string) : callbacks (handover t) = handover t.
Proof.
  unfold handover. destruct (JS.truthy (JS.trim t)); [|reflexivity].
  destruct onSendSupplied; reflexivity.
Qed.

Lemma callbacks_teardown (f : Refs) : callbacks (teardown f) = [].
Proof.
  destruct f as [[r|] [t|] [a|] an [s|]]; reflexivity.
Qed.

(** ** stopRecording *)

Lemma stopRecording_log (c : Hooks) (w : World) :
  log (stopRecording c w) = log w ++ teardown (refs w) ++ handover (transcript c).
Proof.
  unfold handover. open_hooks c. open_world w. cbn [transcript].
  destruct (JS.truthy (JS.trim transcript0)) eqn:T, onSendSupplied eqn:S;
    case_refs; settle; cbn [app]; rewrite <- ?app_assoc, ?app_nil_r; reflexivity.
Qed.

Lemma stopRecording_refs (c : Hooks) (w : World) :
  refs (stopRecording c w) = refs w.
Proof.
  open_hooks c. open_world w.
  destruct (JS.truthy (JS.trim transcript0)) eqn:T, onSendSupplied eqn:S;
    case_refs; settle; reflexivity.
Qed.

Lemma stopRecording_hooks (c : Hooks) (w : World) :
  hooks (stopRecording c w)
  = mkHooks false false (transcript (hooks w)) (interimTranscript (hooks w))
      0%float (recordingTime (hooks w)).
Proof.
  open_hooks c. open_world w.
  destruct (JS.truthy (JS.trim transcript0)) eqn:T, onSendSupplied eqn:S;
    case_refs; settle; reflexivity.
Qed.

(** C1 (amended): [stopRecording] has no guard.  A second call made right
    after a first one leaves the state cells as the first call left them
    ([isRecording] and [isPaused] false, [audioLevel] 0, the transcripts and
    the time untouched) and the refs as they were, and it repeats every
    effect of the first call: it stops the recognition object, clears the
    timer, stops the tracks and closes the audio context again, for each of
    these whose ref is set, and it calls [onTranscript] (then [onSend])
    again whenever the trimmed transcript of its render is not empty. *)
Theorem stopRecording_repeated (c : Hooks) (w : World) :
  let w1 := stopRecording c w in
  let w2 := stopRecording c w1 in
  hooks w2 = hooks w1 /\
  refs w2 = refs w /\
  emitted w w1 = teardown (refs w) ++ handover (transcript c) /\
  emitted w1 w2 = teardown (refs w) ++ handover (transcript c).
Proof.
  intros w1 w2. subst w1 w2.
  split; [|split; [|split]].
  - rewrite !stopRecording_hooks. reflexivity.
  - rewrite !stopRecording_refs. reflexivity.
  - apply emitted_app, stopRecording_log.
  - apply emitted_app. rewrite (stopRecording_log c (stopRecording c w)).
    rewrite stopRecording_refs. reflexivity.
Qed.

(** ** One step *)

(** Reads an equation [... = Some w'] down to the branch that produced it. *)
Ltac crack H :=
  repeat match type of H with
         | None = Some _ => discriminate H
         | match ?x with _ => _ end = Some _ =>
             let E := fresh "E" in destruct x eqn:E; try discriminate H
         end;
  try (injection H as H; try subst).

Ltac solve_log :=
  first
    [ exists []; split; [symmetry; apply app_nil_r | reflexivity]
    | eexists; split; [rewrite <- ?app_assoc; reflexivity | reflexivity] ].

Lemma step_split (w w' : World) (e : Event) :
  step w e = Some w' ->
  exists w0, handle e w = Some w0 /\ w' = commit (hooks w) w0.
Proof.
  unfold step. intros H. destruct (handle e w) as [w0|]; [|discriminate H].
  injection H as <-. exists w0. split; reflexivity.
Qed.

(** The render and the effect touch the recognition objects, their ref
    and the log, and nothing else. *)
Lemma commit_effects (p : Hooks) (w : World) :
  hooks (commit p w) = hooks w /\
  intervals (commit p w) = intervals w /\
  mediaRequests (commit p w) = mediaRequests w /\
  animationFrames (commit p w) = animationFrames w /\
  timerRef (refs (commit p w)) = timerRef (refs w) /\
  exists l, log (commit p w) = log w ++ l /\ forallb ofEffect l = true.
Proof.
  unfold commit. destruct (sameDeps p (hooks w)).
  - repeat split. solve_log.
  - open_world w. destruct speechSupported eqn:S; case_ref recognitionRef0;
      settle; repeat split; solve_log.
Qed.

Lemma ofEffect_calm (l : list Effect) :
  forallb ofEffect l = true -> forallb calm l = true.
Proof.
  rewrite !forallb_forall. intros H x I. specialize (H x I).
  destruct x; try discriminate H; reflexivity.
Qed.

Lemma commit_frame (p : Hooks) (w : World) :
  hooks (commit p w) = hooks w /\
  intervals (commit p w) = intervals w /\
  mediaRequests (commit p w) = mediaRequests w /\
  animationFrames (commit p w) = animationFrames w /\
  timerRef (refs (commit p w)) = timerRef (refs w) /\
  exists l, log (commit p w) = log w ++ l /\ forallb calm l = true.
Proof.
  destruct (commit_effects p w) as (A & B & C & D & E & l & Hl & Cl).
  repeat (split; [assumption|]). exists l. split; [exact Hl|].
  apply ofEffect_calm, Cl.
Qed.

Lemma commit_hooks (p : Hooks) (w : World) : hooks (commit p w) = hooks w.
Proof. apply commit_frame. Qed.

Lemma step_hooks (w w' : World) (e : Event) :
  step w e = Some w' ->
  exists w0, handle e w = Some w0 /\ hooks w' = hooks w0.
Proof.
  intros H. apply step_split in H as (w0 & H0 & ->).
  exists w0. split; [exact H0 | apply commit_hooks].
Qed.

(** Every handler but [stopRecording] leaves the host's props and the
    timer, the tracks and the audio context alone. *)
Lemma handle_calm (w w0 : World) (e : Event) :
  handle e w = Some w0 ->
  stops e = false ->
  exists l, log w0 = log w ++ l /\ forallb calm l = true.
Proof.
  intros H N.
  destruct e as [b|r event|r error|r|i data|i|i data|t]; cbn [handle] in H.
  - destruct b; try discriminate N; crack H; open_world w;
      case_ref recognitionRef0; settle; solve_log.
  - crack H. unfold onresult. destruct (batch event) as [im fi].
    destruct (JS.truthy fi); open_world w; settle; solve_log.
  - cbn [stops] in N. apply negb_false_iff in N. crack H.
    open_world w. settle. solve_log.
  - crack H. open_hooks h. destruct isRecording0, isPaused0; open_world w;
      settle; solve_log.
  - crack H. open_hooks h.
    destruct isRecording0, isPaused0, (level data) eqn:L; open_world w;
      settle; solve_log.
  - crack H. open_world w. settle. solve_log.
  - crack H. open_hooks h.
    destruct isRecording0, isPaused0, (level data) eqn:L; open_world w;
      settle; solve_log.
  - crack H. open_world w. settle. solve_log.
Qed.

Lemma step_calm (w w' : World) (e : Event) :
  step w e = Some w' ->
  stops e = false ->
  exists l, log w' = log w ++ l /\ forallb calm l = true.
Proof.
  intros H N. apply step_split in H as (w0 & H0 & ->).
  destruct (handle_calm _ _ _ H0 N) as (l & Hl & Cl).
  destruct (commit_frame (hooks w) w0) as (_ & _ & _ & _ & _ & l' & Hl' & Cl').
  exists (l ++ l'). split.
  - rewrite Hl', Hl, app_assoc. reflexivity.
  - rewrite forallb_app, Cl, Cl'. reflexivity.
Qed.

Lemma calm_callbacks (l : list Effect) :
  forallb calm l = true -> callbacks l = [].
Proof.
  induction l as [|x l IH]; [reflexivity|].
  cbn [forallb]. intros H. apply andb_true_iff in H as [Hx Hl].
  unfold callbacks in *. cbn [filter]. unfold calm in Hx.
  destruct (isCallback x); [discriminate Hx | exact (IH Hl)].
Qed.

Lemma calm_no_release (l : list Effect) (x : Effect) :
  forallb calm l = true -> isRelease x = true -> ~ In x l.
Proof.
  intros H R I. rewrite forallb_forall in H. specialize (H x I).
  unfold calm in H. rewrite R, orb_true_r in H. discriminate H.
Qed.

(** ** The hand-over at stop *)

Lemma stop_click (w w' : World) :
  step w (Click Stop) = Some w' ->
  isRecording (hooks w) = true /\
  hooks w' = hooks (stopRecording (hooks w) w) /\
  exists post,
    log w' = log w ++ teardown (refs w) ++ handover (transcript (hooks w)) ++ post /\
    forallb calm post = true.
Proof.
  intros H. apply step_split in H as (w0 & H0 & ->).
  cbn [handle shown] in H0. crack H0.
  split; [reflexivity|]. split; [apply commit_hooks|].
  destruct (commit_frame (hooks w) (stopRecording (hooks w) w))
    as (_ & _ & _ & _ & _ & post & Hp & Cp).
  exists post. split; [|exact Cp].
  rewrite Hp, stopRecording_log, <- !app_assoc. reflexivity.
Qed.

Lemma start_click (w w' : World) :
  step w (Click Start) = Some w' ->
  isRecording (hooks w) = false /\
  match recognitionRef (refs w) with
  | Some _ =>
      hooks w' = mkHooks true false "" "" (audioLevel (hooks w)) 0
  | None => hooks w' = hooks w
  end.
Proof.
  intros H. apply step_hooks in H as (w0 & H0 & ->).
  cbn [handle shown] in H0. crack H0.
  apply negb_true_iff in E. split; [exact E|].
  open_world w. cbn [refs recognitionRef hooks].
  case_ref recognitionRef0; settle; reflexivity.
Qed.

(** The hand-over of a click on Stop: it calls [onTranscript] exactly when
    the trimmed transcript is not empty, once, with the trimmed text, and
    when the host passed [onSend] it calls it next, with the same text;
    nothing else in what the click does calls either prop.  No other event
    calls them, but a recognition error other than no-speech, whose handler
    is [stopRecording] itself and hands over the text of another render
    ([error_hands_over_the_text_of_an_old_render] below).  A click on Start
    directly followed by a click on Stop leaves the transcript empty and
    calls neither prop. *)
Theorem stop_hands_over_once :
  (forall w w' : World,
      step w (Click Stop) = Some w' ->
      exists pre post,
        emitted w w'
        = pre ++
          (if JS.truthy (JS.trim (transcript (hooks w)))
           then OnTranscript (JS.trim (transcript (hooks w))) ::
                (if onSendSupplied
                 then [OnSend (JS.trim (transcript (hooks w)))]
                 else [])
           else []) ++ post /\
        callbacks pre = [] /\ callbacks post = []) /\
  (forall (w w' : World) (e : Event),
      step w e = Some w' ->
      stops e = false ->
      callbacks (emitted w w') = []) /\
  (forall w w1 w2 : World,
      step w (Click Start) = Some w1 ->
      step w1 (Click Stop) = Some w2 ->
      transcript (hooks w2) = "" /\ callbacks (emitted w w2) = []).
Proof.
  split; [|split].
  - intros w w' H. apply stop_click in H as (_ & _ & post & Hl & Cp).
    exists (teardown (refs w)), post. split; [|split].
    + apply emitted_app. exact Hl.
    + apply callbacks_teardown.
    + apply calm_callbacks, Cp.
  - intros w w' e H N. destruct (step_calm _ _ _ H N) as (l & Hl & Cl).
    rewrite (emitted_app _ _ _ Hl). apply calm_callbacks, Cl.
  - intros w w1 w2 H1 H2.
    destruct (step_calm _ _ _ H1 eq_refl) as (l1 & Hl1 & Cl1).
    apply start_click in H1 as (F & H1).
    apply stop_click in H2 as (R & Hh & post & Hl2 & Cp).
    assert (T : transcript (hooks w1) = "").
    { destruct (recognitionRef (refs w)).
      - rewrite H1. reflexivity.
      - rewrite H1 in R. congruence. }
    split.
    + rewrite Hh, stopRecording_hooks. exact T.
    + rewrite T in Hl2. cbn [handover JS.trim JS.trimStart JS.trimEnd JS.truthy app] in Hl2.
      rewrite (emitted_app w w2 (l1 ++ teardown (refs w1) ++ post)).
      * rewrite !callbacks_app, callbacks_teardown.
        rewrite (calm_callbacks _ Cl1), (calm_callbacks _ Cp). reflexivity.
      * rewrite Hl2, Hl1, <- !app_assoc. reflexivity.
Qed.

(** ** The state cells after an event *)

Lemma handle_hooks (w w0 : World) (e : Event) :
  handle e w = Some w0 -> hooks w0 = nextHooks e w.
Proof.
  intros H.
  destruct e as [b|r event|r error|r|i data|i|i data|t];
    cbn [handle nextHooks] in *.
  - destruct b; crack H; try apply stopRecording_hooks; open_world w;
      try case_ref recognitionRef0; settle; reflexivity.
  - crack H. unfold onresult. destruct (batch event) as [im fi]. cbn [fst snd].
    destruct (JS.truthy fi); open_world w; settle; reflexivity.
  - crack H. unfold onerror, seq_action.
    destruct (String.eqb error "no-speech").
    + open_world w. settle. reflexivity.
    + rewrite stopRecording_hooks. open_world w. settle. reflexivity.
  - crack H. open_hooks h. destruct isRecording0, isPaused0; open_world w;
      settle; reflexivity.
  - crack H. unfold sampled. open_hooks h.
    destruct isRecording0, isPaused0, (level data) eqn:L; open_world w;
      settle; reflexivity.
  - crack H. open_world w. settle. reflexivity.
  - crack H. unfold sampled. open_hooks h.
    destruct isRecording0, isPaused0, (level data) eqn:L; open_world w;
      settle; reflexivity.
  - crack H. open_world w. settle. reflexivity.
Qed.

Lemma step_nextHooks (w w' : World) (e : Event) :
  step w e = Some w' -> hooks w' = nextHooks e w.
Proof.
  intros H. apply step_hooks in H as (w0 & H0 & ->).
  apply handle_hooks, H0.
Qed.

(** ** Runs *)

Lemma run_invariant (P : World -> Prop) :
  (forall w e w', P w -> step w e = Some w' -> P w') ->
  forall es w w', P w -> run w es = Some w' -> P w'.
Proof.
  intros Hstep. induction es as [|e es IH]; intros w w' Hw Hrun.
  - cbn in Hrun. injection Hrun as <-. exact Hw.
  - cbn [run] in Hrun. destruct (step w e) as [w1|] eqn:E; [|discriminate Hrun].
    apply (IH w1 w'); [apply (Hstep w e w1 Hw E) | exact Hrun].
Qed.

Lemma reachable_invariant (P : World -> Prop) :
  P mount ->
  (forall w e w', P w -> step w e = Some w' -> P w') ->
  forall w, reachable w -> P w.
Proof.
  intros H0 Hstep w [es Hrun]. exact (run_invariant P Hstep es mount w H0 Hrun).
Qed.

(** ** The sampling loop *)

Lemma Forall_remove_nth {A} (P : A -> Prop) (l : list A) :
  forall i, Forall P l -> Forall P (remove_nth i l).
Proof.
  induction l as [|x l IH]; intros i H; destruct i; cbn; try assumption.
  - inversion H; assumption.
  - inversion H; subst. constructor; [assumption | apply IH; assumption].
Qed.

(** The guard of [updateLevel] reads the constants of its render. *)
Lemma updateLevel_guard (c : Hooks) (dataArray : list byte) (w : World) :
  isRecording c = false \/ isPaused c = true ->
  updateLevel c dataArray w = w.
Proof.
  intros G. unfold updateLevel.
  destruct G as [G|G]; rewrite G; [|rewrite orb_true_r]; reflexivity.
Qed.

Lemma updateLevel_sample (c : Hooks) (dataArray : list byte) (w : World) (x : float) :
  isRecording c = true -> isPaused c = false ->
  level dataArray = Some x ->
  audioLevel (hooks (updateLevel c dataArray w)) = x /\
  animationFrames (updateLevel c dataArray w) = animationFrames w ++ [c].
Proof.
  intros R P L. unfold updateLevel. rewrite R, P, L. cbn [negb orb].
  open_world w. settle. split; reflexivity.
Qed.

Lemma quiet_mount : quiet mount.
Proof.
  unfold quiet, mount, blank. destruct speechSupported eqn:S; settle;
    repeat split; constructor.
Qed.

Lemma quiet_handle (w w0 : World) (e : Event) :
  quiet w -> handle e w = Some w0 ->
  quiet w0 /\
  (samplingTick e = true ->
   exists l, log w0 = log w ++ l /\ ~ In RequestAnimationFrame l).
Proof.
  intros (A & M & F) H. unfold quiet.
  destruct e as [b|r event|r error|r|i data|i|i data|t]; cbn [handle] in H.
  - split; [|discriminate].
    destruct b; crack H; open_world w;
      cbn [hooks audioLevel mediaRequests animationFrames shown isRecording] in *.
    + apply negb_true_iff in E. subst isRecording0.
      case_ref recognitionRef0; settle; repeat split; try assumption.
      apply Forall_app. split; [assumption|]. repeat constructor.
    + case_ref recognitionRef0; settle; repeat split; assumption.
    + case_ref recognitionRef0; settle; repeat split; assumption.
    + settle; repeat split; assumption.
    + destruct (JS.truthy (JS.trim transcript0)) eqn:T, onSendSupplied eqn:S;
        case_refs; settle; repeat split; assumption.
  - split; [|discriminate].
    crack H. unfold onresult. destruct (batch event) as [im fi].
    destruct (JS.truthy fi); open_world w; settle; repeat split; assumption.
  - split; [|discriminate].
    crack H. unfold onerror, seq_action.
    destruct (String.eqb error "no-speech").
    + open_world w. settle. repeat split; assumption.
    + open_hooks h. open_world w.
      cbn [hooks audioLevel mediaRequests animationFrames] in *.
      destruct (JS.truthy (JS.trim transcript0)) eqn:T, onSendSupplied eqn:S;
        case_refs; settle; repeat split; assumption.
  - split; [|discriminate].
    crack H. open_hooks h. destruct isRecording0, isPaused0; open_world w;
      settle; repeat split; assumption.
  - crack H.
    assert (R : isRecording h = false).
    { rewrite Forall_forall in M. apply M. eapply nth_error_In. exact E. }
    open_hooks h. cbn [isRecording] in R. subst isRecording0.
    pose proof (Forall_remove_nth _ _ i M) as M'.
    open_world w. cbn [hooks audioLevel mediaRequests animationFrames] in *.
    settle. split; [repeat split; assumption|].
    intros _. eexists. split; [reflexivity|].
    intros [I|[]]. discriminate I.
  - split; [|discriminate].
    crack H. pose proof (Forall_remove_nth _ _ i M) as M'.
    open_world w. cbn [hooks audioLevel mediaRequests animationFrames] in *.
    settle. repeat split; assumption.
  - rewrite F in H. destruct i; discriminate H.
  - split; [|discriminate].
    crack H. open_world w. settle. repeat split; assumption.
Qed.

Lemma quiet_step (w w' : World) (e : Event) :
  quiet w -> step w e = Some w' ->
  quiet w' /\
  (samplingTick e = true ->
   audioLevel (hooks w') = audioLevel (hooks w) /\
   ~ In RequestAnimationFrame (emitted w w')).
Proof.
  intros Q H. apply step_split in H as (w0 & H0 & ->).
  destruct (quiet_handle _ _ _ Q H0) as ((A0 & M0 & F0) & T).
  destruct (commit_effects (hooks w) w0) as (Hh & _ & Hm & Hf & _ & l' & Hl' & Cl').
  split.
  - unfold quiet. rewrite Hh, Hm, Hf. repeat split; assumption.
  - intros S. destruct (T S) as (l & Hl & Nl). split.
    + rewrite Hh, A0. symmetry. apply Q.
    + rewrite (emitted_app w (commit (hooks w) w0) (l ++ l')).
      * intros I. apply in_app_or in I as [I|I]; [exact (Nl I)|].
        rewrite forallb_forall in Cl'. specialize (Cl' _ I). discriminate Cl'.
      * rewrite Hl', Hl, app_assoc. reflexivity.
Qed.

Lemma reachable_quiet (w : World) : reachable w -> quiet w.
Proof.
  apply reachable_invariant.
  - exact quiet_mount.
  - intros u e u' Q H. exact (proj1 (quiet_step u u' e Q H)).
Qed.

(** In every run the guard of [updateLevel] fails at the first tick: the
    tick belongs to the render whose Start button was clicked, and that
    render saw [isRecording] false. *)
Lemma sampling_never_stores (w w' : World) (e : Event) :
  reachable w -> samplingTick e = true -> step w e = Some w' ->
  audioLevel (hooks w') = audioLevel (hooks w) /\
  animationFrames w' = [] /\
  ~ In RequestAnimationFrame (emitted w w').
Proof.
  intros R S H. apply reachable_quiet in R.
  destruct (quiet_step w w' e R H) as ((_ & _ & F) & T).
  destruct (T S) as (A & N). repeat split; assumption.
Qed.

(** C6: [updateLevel] returns before it samples and before it asks for
    the next animation frame whenever the flags it reads say not recording
    or paused; it uses no cancellation.  In every run, a sampling tick (the
    first call of [updateLevel] once the microphone is granted, or an
    animation frame) that comes while the state is paused or not recording
    leaves [audioLevel] as it was, leaves no [updateLevel] scheduled and
    requests no animation frame. *)
Theorem sampling_stops_when_not_recording :
  (forall (c : Hooks) (dataArray : list byte) (w : World),
      isRecording c = false \/ isPaused c = true ->
      updateLevel c dataArray w = w) /\
  (forall (w w' : World) (e : Event),
      reachable w ->
      isRecording (hooks w) = false \/ isPaused (hooks w) = true ->
      samplingTick e = true ->
      step w e = Some w' ->
      audioLevel (hooks w') = audioLevel (hooks w) /\
      animationFrames w' = [] /\
      ~ In RequestAnimationFrame (emitted w w')).
Proof.
  split.
  - exact updateLevel_guard.
  - intros w w' e R _ S H. exact (sampling_never_stores w w' e R S H).
Qed.

(** The range of the level: the value [updateLevel] stores when its render
    is recording and not paused is [level] of the bytes, and it lies
    between 0 and 100; in every run [audioLevel] lies between 0 and 100,
    and it is 0 whenever the state is paused or not recording.  No tick of
    a run meets the first part: see [meter_never_moves] below. *)
Theorem audioLevel_in_range :
  (forall (c : Hooks) (dataArray : list byte) (w : World),
      isRecording c = true -> isPaused c = false ->
      List.length dataArray = bufferLength ->
      exists x,
        level dataArray = Some x /\
        audioLevel (hooks (updateLevel c dataArray w)) = x /\
        inUnitPercent x = true) /\
  (forall w : World,
      reachable w ->
      inUnitPercent (audioLevel (hooks w)) = true /\
      (isRecording (hooks w) = false \/ isPaused (hooks w) = true ->
       audioLevel (hooks w) = 0%float)).
Proof.
  split.
  - intros c dataArray w R P L.
    destruct (level_defined dataArray L) as [x Hx]. exists x.
    split; [exact Hx|]. split.
    + apply (updateLevel_sample c dataArray w x R P Hx).
    + apply (level_range dataArray x L Hx).
  - intros w R. apply reachable_quiet in R. destruct R as (A & _ & _).
    rewrite A. split; [reflexivity | intros _; reflexivity].
Qed.

(** ** The timer *)

Lemma sameDeps_refl (h : Hooks) : sameDeps h h = true.
Proof. unfold sameDeps. rewrite !eqb_reflx. reflexivity. Qed.

Lemma stopRecording_intervals (c : Hooks) (w : World) :
  intervals (stopRecording c w) = cleared_intervals w /\
  mediaRequests (stopRecording c w) = mediaRequests w /\
  animationFrames (stopRecording c w) = animationFrames w /\
  recognitions (stopRecording c w) = recognitions w.
Proof.
  unfold cleared_intervals. open_hooks c. open_world w.
  destruct (JS.truthy (JS.trim transcript0)) eqn:T, onSendSupplied eqn:S;
    case_refs; settle; repeat split; reflexivity.
Qed.

Lemma handle_intervals (w w0 : World) (e : Event) :
  handle e w = Some w0 ->
  (stops e = false -> exists l, intervals w0 = intervals w ++ l) /\
  (stops e = true -> intervals w0 = cleared_intervals w).
Proof.
  intros H.
  destruct e as [b|r event|r error|r|i data|i|i data|t];
    cbn [handle stops] in *.
  - destruct b; crack H; (split; [intros N|intros N]); try discriminate N;
      try apply stopRecording_intervals;
      open_world w; try case_ref recognitionRef0; settle;
      exists []; symmetry; apply app_nil_r.
  - crack H. split; [intros _|discriminate].
    unfold onresult. destruct (batch event) as [im fi].
    destruct (JS.truthy fi); open_world w; settle;
      exists []; symmetry; apply app_nil_r.
  - crack H. unfold onerror, seq_action.
    destruct (String.eqb error "no-speech"); (split; [intros N|intros N]);
      try discriminate N.
    + open_world w. settle. exists []. symmetry. apply app_nil_r.
    + rewrite (proj1 (stopRecording_intervals _ _)).
      open_world w. settle. reflexivity.
  - crack H. split; [intros _|discriminate].
    open_hooks h. destruct isRecording0, isPaused0; open_world w; settle;
      exists []; symmetry; apply app_nil_r.
  - crack H. split; [intros _|discriminate]. open_hooks h.
    destruct isRecording0, isPaused0, (level data) eqn:L; open_world w;
      settle; eexists; reflexivity.
  - crack H. split; [intros _|discriminate].
    open_world w. settle. eexists. reflexivity.
  - crack H. split; [intros _|discriminate]. open_hooks h.
    destruct isRecording0, isPaused0, (level data) eqn:L; open_world w;
      settle; exists []; symmetry; apply app_nil_r.
  - crack H. split; [intros _|discriminate].
    open_world w. settle. exists []. symmetry. apply app_nil_r.
Qed.

Lemma step_intervals (w w' : World) (e : Event) :
  step w e = Some w' ->
  (stops e = false -> exists l, intervals w' = intervals w ++ l) /\
  (stops e = true -> intervals w' = cleared_intervals w).
Proof.
  intros H. apply step_split in H as (w0 & H0 & ->).
  destruct (commit_frame (hooks w) w0) as (_ & Hi & _).
  rewrite Hi. apply (handle_intervals w w0 e H0).
Qed.

Ltac timed_case A B :=
  cbn [hooks refs recordingTime recognitionRef intervals mediaRequests] in A, B;
  match goal with
  | x : option nat |- context [mkRefs ?r _ _ _ _] =>
      constr_eq x r; destruct x as [?|];
      [ settle; split; [lia | intros N; discriminate N]
      | destruct (B eq_refl) as (B1 & B2 & B3); subst;
        settle; split; [lia | intros _; repeat split; reflexivity] ]
  end.

Lemma timed_stopRecording (c : Hooks) (w : World) :
  timed w -> timed (stopRecording c w).
Proof.
  intros (A & B). unfold timed.
  destruct (stopRecording_intervals c w) as (Hi & Hm & _).
  rewrite stopRecording_hooks, stopRecording_refs, Hi, Hm.
  cbn [recordingTime]. split; [exact A|].
  intros N. destruct (B N) as (B1 & B2 & B3). repeat split; try assumption.
  unfold cleared_intervals. rewrite B2. destruct (timerRef (refs w)); reflexivity.
Qed.

Lemma timed_handle (w w0 : World) (e : Event) :
  timed w -> handle e w = Some w0 -> timed w0.
Proof.
  intros (A & B) H.
  destruct e as [b|r event|r error|r|i data|i|i data|t]; cbn [handle] in H.
  - destruct b; crack H; try (apply timed_stopRecording; split; assumption);
      unfold timed; open_world w; timed_case A B.
  - crack H. unfold onresult. destruct (batch event) as [im fi]. unfold timed.
    destruct (JS.truthy fi); open_world w; timed_case A B.
  - crack H. unfold onerror, seq_action.
    destruct (String.eqb error "no-speech").
    + unfold timed. open_world w. timed_case A B.
    + apply timed_stopRecording. unfold timed. open_world w. timed_case A B.
  - crack H. unfold timed. open_hooks h.
    destruct isRecording0, isPaused0; open_world w; timed_case A B.
  - crack H. unfold timed. open_hooks h.
    destruct isRecording0, isPaused0, (level data) eqn:L; open_world w;
      cbn [hooks refs recordingTime recognitionRef intervals mediaRequests] in *;
      (case_ref recognitionRef0;
       [ settle; (split; [lia | intros N; discriminate N])
       | destruct (B eq_refl) as (_ & _ & B3); subst; destruct i; discriminate E ]).
  - crack H. unfold timed. open_world w.
    cbn [hooks refs recordingTime recognitionRef intervals mediaRequests] in *.
    case_ref recognitionRef0.
    + settle; (split; [lia | intros N; discriminate N]).
    + destruct (B eq_refl) as (_ & _ & B3). subst. destruct i; discriminate E.
  - crack H. unfold timed. open_hooks h.
    destruct isRecording0, isPaused0, (level data) eqn:L;
      open_world w; timed_case A B.
  - crack H. unfold timed. open_world w.
    cbn [hooks refs recordingTime recognitionRef intervals mediaRequests] in *.
    case_ref recognitionRef0.
    + settle; (split; [lia | intros N; discriminate N]).
    + destruct (B eq_refl) as (_ & B2 & _). subst. discriminate E.
Qed.

Lemma timed_commit (p : Hooks) (w : World) : timed w -> timed (commit p w).
Proof.
  intros (A & B). unfold timed, commit.
  destruct (sameDeps p (hooks w)); [split; assumption|].
  open_world w.
  cbn [hooks refs recordingTime recognitionRef intervals mediaRequests] in *.
  destruct speechSupported eqn:S; case_ref recognitionRef0; settle;
    (split; [lia | intros N; try discriminate N; apply B; reflexivity]).
Qed.

Lemma timed_step (w w' : World) (e : Event) :
  timed w -> step w e = Some w' -> timed w'.
Proof.
  intros T H. apply step_split in H as (w0 & H0 & ->).
  apply timed_commit. exact (timed_handle w w0 e T H0).
Qed.

Lemma timed_mount : timed mount.
Proof.
  unfold timed, mount, blank, initialHooks.
  destruct speechSupported eqn:S; settle;
    (split; [lia | intros N; try discriminate N; repeat split; reflexivity]).
Qed.

Lemma reachable_timed (w : World) : reachable w -> timed w.
Proof.
  apply reachable_invariant.
  - exact timed_mount.
  - intros u e u' T H. exact (timed_step u u' e T H).
Qed.

Lemma step_enabled_tick (w : World) (t : nat) :
  In t (intervals w) ->
  step w (IntervalTick t) = Some (tick w).
Proof.
  intros I. unfold step. cbn [handle].
  assert (X : existsb (Nat.eqb t) (intervals w) = true).
  { apply existsb_exists. exists t. split; [exact I | apply Nat.eqb_refl]. }
  rewrite X. cbn [option_map]. f_equal.
  unfold commit.
  assert (D : sameDeps (hooks w) (hooks (tick w)) = true).
  { open_world w. destruct isRecording0, isPaused0; reflexivity. }
  rewrite D. reflexivity.
Qed.

Lemma nextHooks_time (w : World) (e : Event) :
  e <> Click Start ->
  recordingTime (hooks w) <= recordingTime (nextHooks e w).
Proof.
  intros N.
  destruct e as [b|r event|r error|r|i data|i|i data|t]; cbn [nextHooks].
  - destruct b; try congruence; cbn; lia.
  - destruct (JS.truthy (snd (batch event))); cbn; lia.
  - destruct (String.eqb error "no-speech"); cbn; lia.
  - lia.
  - destruct (nth_error (mediaRequests w) i) as [c|]; [|lia].
    unfold sampled. destruct (negb (isRecording c) || isPaused c); [lia|].
    destruct (level data); cbn; lia.
  - lia.
  - destruct (nth_error (animationFrames w) i) as [c|]; [|lia].
    unfold sampled. destruct (negb (isRecording c) || isPaused c); [lia|].
    destruct (level data); cbn; lia.
  - cbn. lia.
Qed.

(** C8: in every run [recordingTime] is an integer that is not negative;
    a click on Start leaves it at 0; no other event lowers it; a click on
    Pause clears no timer, and a running timer keeps ticking while paused,
    each tick adding one; no event but those that run [stopRecording]
    (a click on Stop, a recognition error other than no-speech) clears a
    timer, and a click on Stop clears the timer of [timerRef]. *)
Theorem timer_runs_until_stop :
  (forall w : World, reachable w -> 0 <= recordingTime (hooks w)) /\
  (forall w w' : World,
      reachable w -> step w (Click Start) = Some w' ->
      recordingTime (hooks w') = 0) /\
  (forall (w w' : World) (e : Event),
      step w e = Some w' -> e <> Click Start ->
      recordingTime (hooks w) <= recordingTime (hooks w')) /\
  (forall w w' : World,
      step w (Click Pause) = Some w' ->
      isPaused (hooks w') = true /\
      intervals w' = intervals w /\
      (forall t, In t (intervals w') ->
                 exists w'', step w' (IntervalTick t) = Some w'' /\
                             isPaused (hooks w'') = true /\
                             recordingTime (hooks w'')
                             = recordingTime (hooks w') + 1)) /\
  (forall (w w' : World) (e : Event),
      step w e = Some w' -> stops e = false ->
      incl (intervals w) (intervals w') /\
      forall t, ~ In (ClearInterval t) (emitted w w')) /\
  (forall (w w' : World) (t : nat),
      step w (Click Stop) = Some w' -> timerRef (refs w) = Some t ->
      ~ In t (intervals w') /\ In (ClearInterval t) (emitted w w')).
Proof.
  split; [|split; [|split; [|split; [|split]]]].
  - intros w R. apply reachable_timed in R. apply R.
  - intros w w' R H. apply reachable_timed in R as (_ & B).
    rewrite (step_nextHooks w w' _ H). cbn [nextHooks].
    destruct (recognitionRef (refs w)); [reflexivity|].
    apply B. reflexivity.
  - intros w w' e H N. rewrite (step_nextHooks w w' e H).
    apply nextHooks_time, N.
  - intros w w' H.
    pose proof (step_nextHooks w w' _ H) as Hh. cbn [nextHooks] in Hh.
    destruct (proj1 (step_intervals w w' _ H) eq_refl) as (l & Hl).
    assert (Hi : intervals w' = intervals w).
    { apply step_split in H as (w0 & H0 & ->).
      destruct (commit_frame (hooks w) w0) as (_ & Hi & _). rewrite Hi.
      cbn [handle] in H0. crack H0. open_world w.
      case_ref recognitionRef0; settle; reflexivity. }
    split; [rewrite Hh; reflexivity|]. split; [exact Hi|].
    intros t I. exists (tick w'). split; [apply step_enabled_tick, I|].
    rewrite Hh. open_world w'. settle. cbn in Hh. injection Hh as -> -> -> -> -> ->.
    split; reflexivity.
  - intros w w' e H N. split.
    + destruct (proj1 (step_intervals w w' e H) N) as (l & ->).
      apply incl_appl, incl_refl.
    + intros t. destruct (step_calm w w' e H N) as (l & Hl & Cl).
      rewrite (emitted_app w w' l Hl).
      apply calm_no_release; [exact Cl | reflexivity].
  - intros w w' t H Ht. split.
    + rewrite (proj2 (step_intervals w w' _ H) eq_refl).
      unfold cleared_intervals. rewrite Ht. intros I.
      apply filter_In in I as [_ I]. rewrite Nat.eqb_refl in I. discriminate I.
    + apply stop_click in H as (_ & _ & post & Hl & _).
      rewrite (emitted_app w w' _ Hl).
      apply in_or_app. left. unfold teardown. rewrite Ht.
      apply in_or_app. right. left. reflexivity.
Qed.

(** ** The transcripts *)

Lemma append_eq_empty (a b : string) : (a ++ b)%string = "" -> a = "".
Proof. destruct a; [reflexivity | discriminate]. Qed.

Lemma clearTranscript_cleared (w : World) :
  commit (hooks w) (clearTranscript w) = cleared w.
Proof.
  unfold commit.
  assert (D : sameDeps (hooks w) (hooks (clearTranscript w)) = true).
  { open_world w. destruct isRecording0, isPaused0; reflexivity. }
  rewrite D. open_world w. settle. reflexivity.
Qed.

(** C9: [clearTranscript], in any state, sets [transcript] and
    [interimTranscript] to the empty string and changes nothing else:
    [isRecording], [isPaused], [recordingTime] and [audioLevel] keep their
    values, the refs, the recognition objects (listening or not), the
    timers, the pending microphone requests and the scheduled sampling
    ticks are the same, the effect is not run again and nothing is done to
    the outside.  A click on Clear, which the recording panel offers, does
    exactly this, and the state stays recording. *)
Theorem clear_only_empties_transcripts :
  (forall w : World,
      commit (hooks w) (clearTranscript w) = cleared w /\
      transcript (hooks (cleared w)) = "" /\
      interimTranscript (hooks (cleared w)) = "" /\
      isRecording (hooks (cleared w)) = isRecording (hooks w) /\
      isPaused (hooks (cleared w)) = isPaused (hooks w) /\
      recordingTime (hooks (cleared w)) = recordingTime (hooks w) /\
      audioLevel (hooks (cleared w)) = audioLevel (hooks w) /\
      recognitions (cleared w) = recognitions w /\
      animationFrames (cleared w) = animationFrames w /\
      intervals (cleared w) = intervals w /\
      emitted w (cleared w) = []) /\
  (forall w w' : World,
      step w (Click Clear) = Some w' ->
      w' = cleared w /\ isRecording (hooks w') = true).
Proof.
  split.
  - intros w. split; [apply clearTranscript_cleared|].
    repeat (split; [reflexivity|]).
    apply emitted_app. symmetry. apply app_nil_r.
  - intros w w' H. unfold step in H. cbn [handle shown] in H.
    destruct (isRecording (hooks w)) eqn:R; [|discriminate H].
    cbn [option_map onClick] in H. injection H as <-.
    rewrite clearTranscript_cleared. split; [reflexivity | exact R].
Qed.

(** C10 (amended): [stopRecording] leaves [transcript] and
    [interimTranscript] as they were, and so does a click on Stop.  A
    transcript that is not empty becomes empty only by a click on Clear or
    on Start; an interim transcript that is not empty becomes empty only by
    a click on Clear or on Start, or by a recognition result, which
    [onresult] handles whatever the state, stopped included. *)
Theorem stop_keeps_transcripts :
  (forall (c : Hooks) (w : World),
      transcript (hooks (stopRecording c w)) = transcript (hooks w) /\
      interimTranscript (hooks (stopRecording c w))
      = interimTranscript (hooks w)) /\
  (forall w w' : World,
      step w (Click Stop) = Some w' ->
      transcript (hooks w') = transcript (hooks w) /\
      interimTranscript (hooks w') = interimTranscript (hooks w)) /\
  (forall (w w' : World) (e : Event),
      step w e = Some w' ->
      transcript (hooks w) <> "" -> transcript (hooks w') = "" ->
      e = Click Clear \/ e = Click Start) /\
  (forall (w w' : World) (e : Event),
      step w e = Some w' ->
      interimTranscript (hooks w) <> "" -> interimTranscript (hooks w') = "" ->
      e = Click Clear \/ e = Click Start \/
      exists r event, e = Result r event).
Proof.
  split; [|split; [|split]].
  - intros c w. rewrite stopRecording_hooks. split; reflexivity.
  - intros w w' H. rewrite (step_nextHooks w w' _ H). split; reflexivity.
  - intros w w' e H N.
    rewrite (step_nextHooks w w' e H). clear H.
    destruct e as [b|r event|r error|r|i data|i|i data|t]; cbn [nextHooks].
    + destruct b; auto; cbn; congruence.
    + destruct (JS.truthy (snd (batch event))); cbn; intros Z;
        [apply append_eq_empty in Z|]; congruence.
    + destruct (String.eqb error "no-speech"); cbn; congruence.
    + congruence.
    + destruct (nth_error (mediaRequests w) i) as [c|]; [|congruence].
      unfold sampled. destruct (negb (isRecording c) || isPaused c); [congruence|].
      destruct (level data); cbn; congruence.
    + congruence.
    + destruct (nth_error (animationFrames w) i) as [c|]; [|congruence].
      unfold sampled. destruct (negb (isRecording c) || isPaused c); [congruence|].
      destruct (level data); cbn; congruence.
    + cbn. congruence.
  - intros w w' e H N.
    rewrite (step_nextHooks w w' e H). clear H.
    destruct e as [b|r event|r error|r|i data|i|i data|t]; cbn [nextHooks].
    + destruct b; auto; cbn; congruence.
    + intros _. right. right. exists r, event. reflexivity.
    + destruct (String.eqb error "no-speech"); cbn; congruence.
    + congruence.
    + destruct (nth_error (mediaRequests w) i) as [c|]; [|congruence].
      unfold sampled. destruct (negb (isRecording c) || isPaused c); [congruence|].
      destruct (level data); cbn; congruence.
    + congruence.
    + destruct (nth_error (animationFrames w) i) as [c|]; [|congruence].
      unfold sampled. destruct (negb (isRecording c) || isPaused c); [congruence|].
      destruct (level data); cbn; congruence.
    + cbn. congruence.
Qed.

(** ** Recognition errors *)

(** What [onerror] hands to the host is the transcript of the render that
    installed it, whatever was finalized since. *)
Lemma onerror_hands_over_render_text (c : Hooks) (error : string) (w : World) :
  String.eqb error "no-speech" = false ->
  hooks (onerror c error w) = stopped (hooks w) /\
  emitted w (onerror c error w)
  = ConsoleError "Speech recognition error:" error ::
    teardown (refs w) ++ handover (transcript c).
Proof.
  intros N. unfold onerror, seq_action. rewrite N. split.
  - rewrite stopRecording_hooks. open_world w. settle. reflexivity.
  - apply emitted_app. rewrite stopRecording_log.
    open_world w. settle. rewrite <- app_assoc. reflexivity.
Qed.

Lemma onerror_no_speech (c : Hooks) (w : World) :
  onerror c "no-speech" w
  = emit (ConsoleError "Speech recognition error:" "no-speech") w.
Proof. reflexivity. Qed.

(** ** The restart of [onend] *)

Lemma sameDeps_iff (a b : Hooks) :
  sameDeps a b = true <->
  isRecording a = isRecording b /\ isPaused a = isPaused b.
Proof.
  unfold sameDeps. rewrite andb_true_iff, !eqb_true_iff. reflexivity.
Qed.

Lemma nth_error_setListening (l : list Recognition) (b : bool) :
  forall r k o,
    nth_error l k = Some o ->
    exists o', nth_error (setListening r b l) k = Some o' /\
               handlers o' = handlers o /\
               (listening o' = listening o \/ (k = r /\ listening o' = b)).
Proof.
  induction l as [|x l IH]; intros r k o H.
  - destruct k; discriminate H.
  - destruct r, k; cbn in *.
    + injection H as <-. eexists. split; [reflexivity|]. split; [reflexivity|].
      right. split; reflexivity.
    + exists o. repeat split; auto.
    + injection H as <-. exists x. repeat split; auto.
    + destruct (IH r k o H) as (o' & Ho & Hh & Hl). exists o'.
      repeat split; try assumption. destruct Hl as [Hl|[-> Hl]]; auto.
Qed.

Lemma Forall_setListening (P : Recognition -> Prop) (b : bool) (l : list Recognition) :
  forall r,
    Forall P l ->
    (forall o, nth_error l r = Some o -> P (mkRecognition (handlers o) b)) ->
    Forall P (setListening r b l).
Proof.
  induction l as [|x l IH]; intros r F H; [destruct r; constructor|].
  inversion F; subst. destruct r; cbn.
  - constructor; [apply H; reflexivity | assumption].
  - constructor; [assumption|]. apply IH; [assumption|].
    intros o Ho. apply H. exact Ho.
Qed.

Lemma handle_recognitions (w w0 : World) (e : Event) :
  handle e w = Some w0 ->
  recognitionRef (refs w0) = recognitionRef (refs w) /\
  recognitions w0 = nextRecognitions e w.
Proof.
  intros H.
  destruct e as [b|r event|r error|r|i data|i|i data|t];
    cbn [handle nextRecognitions] in *.
  - destruct b; crack H;
      try (split; [rewrite stopRecording_refs; reflexivity
                  | apply stopRecording_intervals]);
      open_world w; cbn [refs recognitionRef recognitions];
      try case_ref recognitionRef0; settle; split; reflexivity.
  - crack H. unfold onresult. destruct (batch event) as [im fi].
    destruct (JS.truthy fi); open_world w; settle; split; reflexivity.
  - crack H. unfold onerror, seq_action.
    destruct (String.eqb error "no-speech").
    + open_world w. settle. split; reflexivity.
    + rewrite stopRecording_refs, (proj2 (proj2 (proj2 (stopRecording_intervals _ _)))).
      open_world w. settle. split; reflexivity.
  - crack H. unfold restarts. open_hooks h.
    destruct isRecording0, isPaused0; open_world w; settle; split; reflexivity.
  - crack H. open_hooks h.
    destruct isRecording0, isPaused0, (level data) eqn:L; open_world w;
      settle; split; reflexivity.
  - crack H. open_world w. settle. split; reflexivity.
  - crack H. open_hooks h.
    destruct isRecording0, isPaused0, (level data) eqn:L; open_world w;
      settle; split; reflexivity.
  - crack H. open_world w. settle. split; reflexivity.
Qed.

Lemma listener_nth (w : World) (r : nat) (c : Hooks) :
  listener w r = Some c ->
  exists o, nth_error (recognitions w) r = Some o /\
            listening o = true /\ handlers o = c.
Proof.
  unfold listener. destruct (nth_error (recognitions w) r) as [o|]; [|discriminate].
  destruct (listening o) eqn:L; [|discriminate].
  intros H. injection H as <-. exists o. repeat split. exact L.
Qed.

Lemma stale_listener (w : World) (r : nat) (c : Hooks) :
  stale w -> listener w r = Some c -> restarts c = false.
Proof.
  intros (_ & F & _) H. apply listener_nth in H as (o & Ho & L & <-).
  rewrite Forall_forall in F. apply (F o); [|exact L].
  eapply nth_error_In. exact Ho.
Qed.

Lemma stale_handle (w w0 : World) (e : Event) :
  stale w -> handle e w = Some w0 -> carried w w0.
Proof.
  intros St H. pose proof St as (U & F & K).
  destruct (handle_recognitions w w0 e H) as (R & N).
  pose proof (handle_hooks w w0 e H) as Hh.
  unfold carried. rewrite R, N, Hh. split; [reflexivity|].
  assert (Same : Forall (fun o => listening o = true -> restarts (handlers o) = false)
                   (recognitions w) /\
                 (forall k, recognitionRef (refs w) = Some k ->
                            exists o, nth_error (recognitions w) k = Some o /\
                                      sameDeps (handlers o) (hooks w) = true /\
                                      (sameDeps (hooks w) (nextHooks e w) = true ->
                                       listening o = false))).
  { split; [exact F|]. intros k Hk. destruct (K k Hk) as (o & Ho & D & L).
    exists o. repeat split; auto. }
  assert (Started : forall k,
             recognitionRef (refs w) = Some k ->
             restarts (hooks w) = false ->
             sameDeps (hooks w) (nextHooks e w) = false ->
             Forall (fun o => listening o = true -> restarts (handlers o) = false)
               (setListening k true (recognitions w)) /\
             (forall k', recognitionRef (refs w) = Some k' ->
                         exists o, nth_error (setListening k true (recognitions w)) k' = Some o /\
                                   sameDeps (handlers o) (hooks w) = true /\
                                   (sameDeps (hooks w) (nextHooks e w) = true ->
                                    listening o = false))).
  { intros k Hk Hr Hd. split.
    - apply Forall_setListening; [exact F|].
      intros o Ho _. cbn [handlers].
      destruct (K k Hk) as (o' & Ho' & D & _). rewrite Ho in Ho'. injection Ho' as <-.
      apply sameDeps_iff in D as (D1 & D2). unfold restarts in *.
      rewrite D1, D2. exact Hr.
    - intros k' Hk'. destruct (K k' Hk') as (o & Ho & D & _).
      destruct (nth_error_setListening _ true k k' o Ho) as (o' & Ho' & Hh' & _).
      exists o'. split; [exact Ho'|]. rewrite Hh'. split; [exact D|].
      rewrite Hd. discriminate. }
  destruct e as [b|r event|r error|r|i data|i|i data|t];
    cbn [nextRecognitions]; try exact Same.
  - cbn [handle] in H.
    destruct b; try exact Same; crack H; cbn [shown] in E;
      (destruct (recognitionRef (refs w)) as [k|] eqn:Hk; [|exact Same]);
      apply (Started k eq_refl); unfold restarts, sameDeps; cbn [nextHooks];
      rewrite ?Hk; cbn [isRecording isPaused].
    + apply negb_true_iff in E. rewrite E. reflexivity.
    + apply negb_true_iff in E. rewrite E. reflexivity.
    + apply andb_true_iff in E as (E1 & E2). rewrite E1, E2. reflexivity.
    + apply andb_true_iff in E as (E1 & E2). rewrite E1, E2. reflexivity.
  - cbn [handle] in H. crack H.
    rewrite (stale_listener w r h St E). split.
    + apply Forall_setListening; [exact F|]. intros o _ Hl. discriminate Hl.
    + intros k Hk. destruct (K k Hk) as (o & Ho & D & L).
      destruct (nth_error_setListening _ false r k o Ho) as (o' & Ho' & Hh' & Hl).
      exists o'. split; [exact Ho'|]. rewrite Hh'. split; [exact D|].
      intros _. destruct Hl as [Hl|[_ Hl]]; congruence.
Qed.

Lemma carried_commit (w w0 : World) :
  (speechSupported = false -> recognitionRef (refs w) = None) ->
  carried w w0 -> stale (commit (hooks w) w0).
Proof.
  intros U (R & F & K). unfold stale, commit.
  destruct (sameDeps (hooks w) (hooks w0)) eqn:D.
  - rewrite R. split; [exact U|]. split; [exact F|].
    intros k Hk. destruct (K k Hk) as (o & Ho & Do & L). exists o.
    split; [exact Ho|]. split; [|apply L; reflexivity].
    apply sameDeps_iff in D as (D1 & D2). apply sameDeps_iff in Do as (D3 & D4).
    apply sameDeps_iff. split; congruence.
  - destruct speechSupported eqn:S.
    + assert (X : forall v,
                 recognitions ((effect_cleanup ;; effect_setup (hooks v)) v)
                 = recognitions v ++ [mkRecognition (hooks v) false] /\
                 recognitionRef (refs ((effect_cleanup ;; effect_setup (hooks v)) v))
                 = Some (List.length (recognitions v)) /\
                 hooks ((effect_cleanup ;; effect_setup (hooks v)) v) = hooks v).
      { intros v. open_world v. case_ref recognitionRef0; settle;
          repeat split; reflexivity. }
      destruct (X w0) as (X1 & X2 & X3). rewrite X1, X2, X3.
      split; [discriminate|]. split.
      * apply Forall_app. split; [exact F|].
        constructor; [|constructor]. cbn. discriminate.
      * intros k Hk. injection Hk as <-. eexists. split.
        -- rewrite nth_error_app2, Nat.sub_diag by apply Nat.le_refl. reflexivity.
        -- cbn [handlers listening]. split; [apply sameDeps_refl | reflexivity].
    + specialize (U eq_refl). rewrite U in R.
      assert (X : forall v,
                 recognitionRef (refs v) = None ->
                 recognitions ((effect_cleanup ;; effect_setup (hooks v)) v)
                 = recognitions v /\
                 recognitionRef (refs ((effect_cleanup ;; effect_setup (hooks v)) v))
                 = None).
      { intros v. open_world v. cbn [refs recognitionRef]. intros ->.
        settle. split; reflexivity. }
      destruct (X w0 R) as (X1 & X2). rewrite X1, X2.
      split; [reflexivity|]. split; [exact F | discriminate].
Qed.

Lemma stale_step (w w' : World) (e : Event) :
  stale w -> step w e = Some w' -> stale w'.
Proof.
  intros St H. apply step_split in H as (w0 & H0 & ->).
  apply carried_commit; [apply St | exact (stale_handle w w0 e St H0)].
Qed.

Lemma stale_mount : stale mount.
Proof.
  unfold stale, mount, blank, initialHooks.
  destruct speechSupported eqn:S; settle.
  - split; [discriminate|]. split.
    + constructor; [|constructor]. cbn. discriminate.
    + intros k Hk. injection Hk as <-. eexists. repeat split; reflexivity.
  - split; [reflexivity|]. split; [constructor | discriminate].
Qed.

Lemma reachable_stale (w : World) : reachable w -> stale w.
Proof.
  apply reachable_invariant.
  - exact stale_mount.
  - intros u e u' St H. exact (stale_step u u' e St H).
Qed.

Lemma nth_error_setListening_same (l : list Recognition) (b : bool) :
  forall r o,
    nth_error l r = Some o ->
    nth_error (setListening r b l) r = Some (mkRecognition (handlers o) b).
Proof.
  induction l as [|x l IH]; intros r o H; destruct r; cbn in *;
    try discriminate H.
  - injection H as <-. reflexivity.
  - apply IH, H.
Qed.

(** X6: in every run the object in [recognitionRef] is not listening, so
    a click on Start or Resume never calls [start()] on an object that is
    already started. *)
Lemma started_object_is_idle (w : World) (k : nat) :
  reachable w -> recognitionRef (refs w) = Some k -> listener w k = None.
Proof.
  intros Re Hk. apply reachable_stale in Re as (_ & _ & K).
  destruct (K k Hk) as (o & Ho & _ & L).
  unfold listener. rewrite Ho, L. reflexivity.
Qed.

(** X7: in every run, an [end] event finds [onend] with the flags of a
    render that was not recording or was paused: the state cells stay as
    they are, nothing is called, and the object has ended and is not
    started again, whatever the state is by then. *)
Lemma onend_never_restarts (w w' : World) (r : nat) :
  reachable w -> step w (End r) = Some w' ->
  hooks w' = hooks w /\
  emitted w w' = [] /\
  listener w' r = None.
Proof.
  intros Re H. apply reachable_stale in Re.
  pose proof (step_nextHooks w w' _ H) as Hh. cbn [nextHooks] in Hh.
  split; [exact Hh|].
  apply step_split in H as (w0 & H0 & ->).
  cbn [handle] in H0. crack H0.
  pose proof (stale_listener w r h Re E) as Hr. unfold restarts in Hr.
  assert (X : (withRecognitions (setListening r false) ;; onend h r) w
              = withRecognitions (setListening r false) w).
  { unfold onend, seq_action. rewrite Hr. reflexivity. }
  rewrite X in *.
  assert (D : commit (hooks w) (withRecognitions (setListening r false) w)
              = withRecognitions (setListening r false) w).
  { unfold commit. cbn [withRecognitions hooks]. rewrite sameDeps_refl. reflexivity. }
  rewrite D. split.
  - apply emitted_app. cbn. symmetry. apply app_nil_r.
  - apply listener_nth in E as (o & Ho & _ & _).
    unfold listener. cbn [withRecognitions recognitions].
    rewrite (nth_error_setListening_same _ false r o Ho). reflexivity.
Qed.

(** * Further properties of the component *)

(** ** What an event does to the outside *)

Lemma handle_effects (w w0 : World) (e : Event) :
  handle e w = Some w0 -> log w0 = log w ++ effectsOf e w.
Proof.
  intros H.
  destruct e as [b|r event|r error|r|i data|i|i data|t];
    cbn [handle effectsOf] in *.
  - destruct b; crack H; try apply stopRecording_log;
      open_world w; cbn [refs recognitionRef log];
      try case_ref recognitionRef0; settle;
      rewrite <- ?app_assoc, ?app_nil_r; reflexivity.
  - crack H. unfold onresult. destruct (batch event) as [im fi].
    destruct (JS.truthy fi); open_world w; settle;
      rewrite ?app_nil_r; reflexivity.
  - crack H. unfold onerror, seq_action.
    destruct (String.eqb error "no-speech").
    + open_world w. settle. reflexivity.
    + rewrite stopRecording_log. open_world w. settle.
      rewrite <- app_assoc. reflexivity.
  - crack H. unfold restarts. open_hooks h.
    destruct isRecording0, isPaused0; open_world w; settle;
      rewrite ?app_nil_r; reflexivity.
  - crack H. unfold sampledEffects. open_hooks h.
    destruct isRecording0, isPaused0, (level data) eqn:L; open_world w;
      settle; rewrite <- ?app_assoc; reflexivity.
  - crack H. open_world w. settle. rewrite <- !app_assoc. reflexivity.
  - crack H. unfold sampledEffects. open_hooks h.
    destruct isRecording0, isPaused0, (level data) eqn:L; open_world w;
      settle; rewrite ?app_nil_r; reflexivity.
  - crack H. open_world w. settle. rewrite app_nil_r. reflexivity.
Qed.

Lemma commit_effects_of (p : Hooks) (w : World) :
  log (commit p w)
  = log w ++
    (if sameDeps p (hooks w) then []
     else ofRef (recognitionRef (refs w)) RecognitionStop ++
          (if speechSupported then []
           else [ConsoleError "Speech recognition not supported" "";
                 Alert "Voice input is not supported in your browser. Please use Chrome or Edge."])).
Proof.
  unfold commit. destruct (sameDeps p (hooks w)).
  - symmetry. apply app_nil_r.
  - open_world w. destruct speechSupported eqn:S; case_ref recognitionRef0;
      settle; rewrite <- ?app_assoc, ?app_nil_r; reflexivity.
Qed.

Lemma step_effects (w w' : World) (e : Event) :
  step w e = Some w' ->
  emitted w w' = effectsOf e w ++ renderEffects e w.
Proof.
  intros H. apply step_split in H as (w0 & H0 & ->).
  apply emitted_app. rewrite commit_effects_of.
  rewrite (handle_effects w w0 e H0), (handle_hooks w w0 e H0).
  rewrite (proj1 (handle_recognitions w w0 e H0)).
  unfold renderEffects. rewrite <- app_assoc. reflexivity.
Qed.

Lemma In_teardown (f : Refs) (x : Effect) :
  In x (teardown f) -> isRelease x = true \/ exists r, x = RecognitionStop r.
Proof.
  destruct f as [[r|] [t|] [a|] an [s|]]; cbn;
    intros I; repeat destruct I as [I|I]; subst; eauto; contradiction.
Qed.

Lemma In_handover (t : string) (x : Effect) :
  In x (handover t) -> isCallback x = true.
Proof.
  unfold handover. destruct (JS.truthy (JS.trim t)); [|intros []].
  destruct onSendSupplied; cbn; intros I; repeat destruct I as [I|I];
    subst; try reflexivity; contradiction.
Qed.

Lemma In_renderEffects (e : Event) (w : World) (x : Effect) :
  In x (renderEffects e w) -> ofEffect x = true.
Proof.
  unfold renderEffects. destruct (sameDeps (hooks w) (nextHooks e w)); [intros []|].
  destruct (recognitionRef (refs w)), speechSupported; cbn;
    intros I; repeat destruct I as [I|I]; subst; try reflexivity; contradiction.
Qed.

(** ** The state is one of idle, recording and paused *)

(** X4: in every run [isPaused] holds only while [isRecording] holds: the
    component is idle, recording, or recording and paused. *)
Theorem paused_only_while_recording (w : World) :
  reachable w -> isPaused (hooks w) = true -> isRecording (hooks w) = true.
Proof.
  revert w.
  apply (reachable_invariant
           (fun w => isPaused (hooks w) = true -> isRecording (hooks w) = true)).
  - unfold mount, blank. destruct speechSupported eqn:S; settle; discriminate.
  - intros w e w' IH H. rewrite (step_nextHooks w w' e H).
    apply step_split in H as (w0 & H0 & _).
    destruct e as [b|r event|r error|r|i data|i|i data|t];
      cbn [handle nextHooks] in *.
    + destruct b; crack H0; cbn [shown] in E.
      * destruct (recognitionRef (refs w)); [discriminate | exact IH].
      * apply andb_true_iff in E as [E _]. intros _. exact E.
      * discriminate.
      * exact IH.
      * discriminate.
    + destruct (JS.truthy (snd (batch event))); exact IH.
    + destruct (String.eqb error "no-speech"); [exact IH | discriminate].
    + exact IH.
    + destruct (nth_error (mediaRequests w) i) as [c|]; [|exact IH].
      unfold sampled. destruct (negb (isRecording c) || isPaused c); [exact IH|].
      destruct (level data); exact IH.
    + exact IH.
    + destruct (nth_error (animationFrames w) i) as [c|]; [|exact IH].
      unfold sampled. destruct (negb (isRecording c) || isPaused c); [exact IH|].
      destruct (level data); exact IH.
    + exact IH.
Qed.

(** ** The level meter *)

(** X15: in every run the audio level is 0, no [updateLevel] is waiting
    for an animation frame, and [requestAnimationFrame] was never
    called. *)
Theorem meter_never_moves (w : World) :
  reachable w ->
  audioLevel (hooks w) = 0%float /\
  animationFrames w = [] /\
  ~ In RequestAnimationFrame (log w).
Proof.
  intros R.
  assert (Q : quiet w /\ ~ In RequestAnimationFrame (log w)).
  { revert w R.
    apply (reachable_invariant
             (fun w => quiet w /\ ~ In RequestAnimationFrame (log w))).
    - split; [exact quiet_mount|].
      unfold mount, blank. destruct speechSupported eqn:S; settle; cbn.
      + intros [].
      + intros [I|[I|[]]]; discriminate I.
    - intros w e w' (Q & N) H. split; [exact (proj1 (quiet_step w w' e Q H))|].
      pose proof (step_effects w w' e H) as L.
      assert (Hl : log w' = log w ++ emitted w w').
      { clear L. apply step_split in H as (w0 & H0 & ->).
        rewrite commit_effects_of, (handle_effects w w0 e H0), <- app_assoc.
        f_equal. symmetry. apply emitted_app.
        rewrite commit_effects_of, (handle_effects w w0 e H0), <- app_assoc.
        reflexivity. }
      rewrite Hl, L. intros I.
      apply in_app_or in I as [I|I]; [exact (N I)|].
      apply in_app_or in I as [I|I];
        [|apply In_renderEffects in I; discriminate I].
      destruct Q as (_ & M & F).
      destruct e as [b|r event|r error|r|i data|i|i data|t]; cbn [effectsOf] in I.
      + destruct b.
        * destruct (recognitionRef (refs w)); cbn in I;
            repeat destruct I as [I|I]; try discriminate I; contradiction.
        * destruct (recognitionRef (refs w)); cbn in I;
            repeat destruct I as [I|I]; try discriminate I; contradiction.
        * destruct (recognitionRef (refs w)); cbn in I;
            repeat destruct I as [I|I]; try discriminate I; contradiction.
        * contradiction.
        * apply in_app_or in I as [I|I].
          -- apply In_teardown in I as [I|[r I]]; discriminate I.
          -- apply In_handover in I. discriminate I.
      + contradiction.
      + destruct I as [I|I]; [discriminate I|].
        destruct (String.eqb error "no-speech"); [contradiction|].
        destruct (listener w r); [|contradiction].
        apply in_app_or in I as [I|I].
        * apply In_teardown in I as [I|[r' I]]; discriminate I.
        * apply In_handover in I. discriminate I.
      + destruct (listener w r) as [c|]; [|contradiction].
        destruct (restarts c); cbn in I;
          repeat destruct I as [I|I]; try discriminate I; contradiction.
      + destruct (nth_error (mediaRequests w) i) as [c|] eqn:E; [|contradiction].
        rewrite Forall_forall in M. pose proof (M c (nth_error_In _ _ E)) as Rc.
        unfold sampledEffects in I. rewrite Rc in I. cbn in I.
        destruct I as [I|[]]. discriminate I.
      + cbn in I. repeat destruct I as [I|I]; try discriminate I; contradiction.
      + rewrite F in I. destruct i; contradiction.
      + contradiction. }
  destruct Q as ((A & _ & F) & N). repeat split; assumption.
Qed.

(** ** Timers *)

Lemma stopRecording_counters (c : Hooks) (w : World) :
  nextInterval (stopRecording c w) = nextInterval w /\
  nextStream (stopRecording c w) = nextStream w /\
  nextContext (stopRecording c w) = nextContext w.
Proof.
  open_hooks c. open_world w.
  destruct (JS.truthy (JS.trim transcript0)) eqn:T, onSendSupplied eqn:S;
    case_refs; settle; repeat split; reflexivity.
Qed.

Lemma commit_counters (p : Hooks) (w : World) :
  nextInterval (commit p w) = nextInterval w /\
  nextStream (commit p w) = nextStream w /\
  nextContext (commit p w) = nextContext w /\
  streamRef (refs (commit p w)) = streamRef (refs w) /\
  audioContextRef (refs (commit p w)) = audioContextRef (refs w) /\
  analyserRef (refs (commit p w)) = analyserRef (refs w).
Proof.
  unfold commit. destruct (sameDeps p (hooks w)); [repeat split|].
  open_world w. destruct speechSupported eqn:S; case_ref recognitionRef0;
    settle; repeat split; reflexivity.
Qed.

Lemma handle_timers (w w0 : World) (e : Event) :
  handle e w = Some w0 ->
  (timerRef (refs w0), nextInterval w0, intervals w0) = nextTimers e w.
Proof.
  intros H.
  destruct e as [b|r event|r error|r|i data|i|i data|t];
    cbn [handle nextTimers stops onClick] in *.
  - destruct b; crack H;
      try (rewrite stopRecording_refs, (proj1 (stopRecording_counters _ _)),
             (proj1 (stopRecording_intervals _ _)); reflexivity);
      open_world w; try case_ref recognitionRef0; settle; reflexivity.
  - crack H. unfold onresult. destruct (batch event) as [im fi].
    destruct (JS.truthy fi); open_world w; settle; reflexivity.
  - crack H. unfold onerror, seq_action.
    destruct (String.eqb error "no-speech"); cbn [negb].
    + open_world w. settle. reflexivity.
    + rewrite stopRecording_refs, (proj1 (stopRecording_counters _ _)),
        (proj1 (stopRecording_intervals _ _)).
      unfold cleared_intervals. open_world w. settle. reflexivity.
  - crack H. open_hooks h.
    destruct isRecording0, isPaused0; open_world w; settle; reflexivity.
  - crack H. open_hooks h.
    destruct isRecording0, isPaused0, (level data) eqn:L; open_world w;
      settle; reflexivity.
  - crack H. open_world w. settle. reflexivity.
  - crack H. open_hooks h.
    destruct isRecording0, isPaused0, (level data) eqn:L; open_world w;
      settle; reflexivity.
  - crack H. open_world w. settle. reflexivity.
Qed.

Lemma step_timers (w w' : World) (e : Event) :
  step w e = Some w' ->
  (timerRef (refs w'), nextInterval w', intervals w') = nextTimers e w.
Proof.
  intros H. apply step_split in H as (w0 & H0 & ->).
  destruct (commit_frame (hooks w) w0) as (_ & Hi & _ & _ & Ht & _).
  rewrite Hi, Ht, (proj1 (commit_counters _ _)).
  apply handle_timers, H0.
Qed.

Lemma nextTimers_cases (e : Event) (w : World) :
  nextTimers e w
  = (Some (nextInterval w), S (nextInterval w), intervals w ++ [nextInterval w]) \/
  nextTimers e w = (timerRef (refs w), nextInterval w, intervals w) \/
  nextTimers e w = (timerRef (refs w), nextInterval w, cleared_intervals w).
Proof.
  destruct e; cbn [nextTimers]; try (left; reflexivity);
    destruct (stops _); auto.
Qed.

Lemma In_cleared_intervals (w : World) (t : nat) :
  In t (cleared_intervals w) <->
  In t (intervals w) /\ timerRef (refs w) <> Some t.
Proof.
  unfold cleared_intervals. destruct (timerRef (refs w)) as [t0|].
  - rewrite filter_In, negb_true_iff, Nat.eqb_neq. split.
    + intros [I N]. split; [exact I|]. intros E. injection E as <-.
      apply N. reflexivity.
    + intros [I N]. split; [exact I|]. intros <-. apply N. reflexivity.
  - split; [intros I; split; [exact I | discriminate] | intros [I _]; exact I].
Qed.

Lemma ordered_step (w w' : World) (e : Event) :
  ordered w -> step w e = Some w' -> ordered w'.
Proof.
  intros [F T] H. apply step_timers in H. unfold ordered.
  destruct (nextTimers_cases e w) as [N|[N|N]]; rewrite N in H;
    injection H as -> -> ->.
  - split.
    + apply Forall_app. split.
      * eapply Forall_impl; [|exact F]. cbn. intros a Ha.
        apply Nat.lt_lt_succ_r, Ha.
      * constructor; [apply Nat.lt_succ_diag_r | constructor].
    + intros t Ht. injection Ht as <-. apply Nat.lt_succ_diag_r.
  - split; assumption.
  - split; [|assumption].
    rewrite Forall_forall in *. intros t Ht.
    apply In_cleared_intervals in Ht as [Ht _]. apply F, Ht.
Qed.

Lemma ordered_mount : ordered mount.
Proof.
  unfold ordered, mount, blank. destruct speechSupported eqn:S; settle;
    (split; [constructor | discriminate]).
Qed.

Lemma reachable_ordered (w : World) : reachable w -> ordered w.
Proof.
  revert w. apply (reachable_invariant ordered).
  - exact ordered_mount.
  - intros w e w'. apply ordered_step.
Qed.

Lemma run_app (es1 es2 : list Event) :
  forall w, run w (es1 ++ es2)
            = match run w es1 with
              | Some w1 => run w1 es2
              | None => None
              end.
Proof.
  induction es1 as [|e es1 IH]; intros w; cbn [run app]; [reflexivity|].
  destruct (step w e) as [w1|]; [apply IH | reflexivity].
Qed.

Lemma reachable_run (w w' : World) (es : list Event) :
  reachable w -> run w es = Some w' -> reachable w'.
Proof.
  intros [es0 R] H. exists (es0 ++ es). rewrite run_app, R. exact H.
Qed.

(** X13: in every run, a running timer that [timerRef] does not hold is
    never cleared: whatever follows, it is still running and still out of
    [timerRef], and its tick still adds one second to the recording
    time. *)
Theorem orphaned_timer_is_never_cleared (w : World) (t : nat) :
  reachable w ->
  In t (intervals w) ->
  timerRef (refs w) <> Some t ->
  forall es w',
    run w es = Some w' ->
    In t (intervals w') /\
    timerRef (refs w') <> Some t /\
    exists w'', step w' (IntervalTick t) = Some w'' /\
                recordingTime (hooks w'') = recordingTime (hooks w') + 1.
Proof.
  intros Re I N es w' H.
  assert (Q : ordered w' /\ In t (intervals w') /\ timerRef (refs w') <> Some t).
  { revert H.
    apply (run_invariant
             (fun v => ordered v /\ In t (intervals v) /\
                       timerRef (refs v) <> Some t));
      [|split; [apply reachable_ordered, Re | split; assumption]].
    clear. intros w e w' (O & I & N) H.
    split; [exact (ordered_step w w' e O H)|].
    apply step_timers in H. destruct O as [F _].
    destruct (nextTimers_cases e w) as [X|[X|X]]; rewrite X in H;
      injection H as H1 _ H3; rewrite H1, H3.
    - split; [apply in_or_app; left; exact I|].
      intros E. injection E as E. rewrite Forall_forall in F.
      specialize (F t I). rewrite E in F. exact (Nat.lt_irrefl _ F).
    - split; assumption.
    - split; [|exact N]. apply In_cleared_intervals. split; assumption. }
  destruct Q as (_ & I' & N'). split; [exact I'|]. split; [exact N'|].
  exists (tick w'). split; [apply step_enabled_tick, I'|].
  open_world w'. settle. reflexivity.
Qed.

(** ** The microphone *)

(** X11: when the microphone is refused, the component logs the error
    and alerts "Could not access microphone. Please grant permission.";
    the state cells and the recognition objects stay as they are, and
    [startRecording] goes on to start the timer, whose tick then advances
    the recording time. *)
Theorem microphone_refused (w w' : World) (i : nat) :
  step w (MediaRejected i) = Some w' ->
  hooks w' = hooks w /\
  recognitions w' = recognitions w /\
  emitted w w'
  = [ConsoleError "Error accessing microphone:" "";
     Alert "Could not access microphone. Please grant permission.";
     SetInterval (nextInterval w)] /\
  timerRef (refs w') = Some (nextInterval w) /\
  intervals w' = intervals w ++ [nextInterval w] /\
  exists w'', step w' (IntervalTick (nextInterval w)) = Some w'' /\
              recordingTime (hooks w'') = recordingTime (hooks w) + 1.
Proof.
  intros H.
  pose proof (step_nextHooks w w' _ H) as Hh. cbn [nextHooks] in Hh.
  pose proof (step_effects w w' _ H) as He.
  unfold renderEffects in He. cbn [effectsOf nextHooks] in He.
  rewrite sameDeps_refl, app_nil_r in He.
  pose proof (step_timers w w' _ H) as Ht. cbn [nextTimers] in Ht.
  injection Ht as Ht1 Ht2 Ht3.
  assert (Hr : recognitions w' = recognitions w).
  { apply step_split in H as (w0 & H0 & ->).
    destruct (handle_recognitions w w0 _ H0) as [_ R].
    pose proof (handle_hooks w w0 _ H0) as Hh0. cbn [nextHooks] in Hh0.
    unfold commit. rewrite Hh0, sameDeps_refl. exact R. }
  repeat (split; [assumption|]).
  exists (tick w'). split.
  - apply step_enabled_tick. rewrite Ht3. apply in_or_app. right. left.
    reflexivity.
  - rewrite <- Hh. open_world w'. settle. reflexivity.
Qed.

(** X12: in every run, when the microphone is granted, whatever happened
    since the click on Start (the recording may have been stopped), the
    component stores the new stream and audio context in its refs and
    starts a new timer, stored in [timerRef]; the state cells stay as they
    are and setting the timer is the only call. *)
Theorem microphone_granted_in_any_state (w w' : World) (i : nat) (dataArray : list byte) :
  reachable w ->
  step w (MediaResolved i dataArray) = Some w' ->
  hooks w' = hooks w /\
  emitted w w' = [SetInterval (nextInterval w)] /\
  streamRef (refs w') = Some (nextStream w) /\
  audioContextRef (refs w') = Some (nextContext w) /\
  timerRef (refs w') = Some (nextInterval w) /\
  intervals w' = intervals w ++ [nextInterval w].
Proof.
  intros Re H. apply reachable_quiet in Re as (_ & M & _).
  pose proof (step_nextHooks w w' _ H) as Hh.
  pose proof (step_effects w w' _ H) as He.
  pose proof (step_timers w w' _ H) as Ht. cbn [nextTimers] in Ht.
  injection Ht as Ht1 Ht2 Ht3.
  apply step_split in H as (w0 & H0 & ->).
  unfold renderEffects in He. cbn [nextHooks effectsOf] in Hh, He.
  cbn [handle] in H0.
  destruct (nth_error (mediaRequests w) i) as [c|] eqn:E; [|discriminate H0].
  rewrite Forall_forall in M. pose proof (M c (nth_error_In _ _ E)) as Rc.
  unfold sampled in Hh, He. unfold sampledEffects in He.
  rewrite Rc in Hh, He. cbn [negb orb app] in Hh, He.
  rewrite sameDeps_refl in He.
  repeat (split; [assumption|]).
  destruct (commit_counters (hooks w) w0) as (_ & _ & _ & Cs & Ca & _).
  rewrite Cs, Ca.
  destruct (Nat.eqb (List.length dataArray) bufferLength); [|discriminate H0].
  injection H0 as <-. rewrite Ht1, Ht3.
  open_hooks c. cbn [isRecording] in Rc. subst.
  open_world w. settle. repeat split; reflexivity.
Qed.

(** ** Pause and resume *)

(** X10: after a click on Pause, Resume can be clicked, and it leaves the
    six state cells as they were before the pause; the timers that run and
    [timerRef] are untouched by the two clicks, so the clock keeps counting
    during the pause, and nothing is released or handed to the host. *)
Theorem pause_then_resume (w w1 : World) :
  step w (Click Pause) = Some w1 ->
  exists w2,
    step w1 (Click Resume) = Some w2 /\
    hooks w2 = hooks w /\
    intervals w2 = intervals w /\
    timerRef (refs w2) = timerRef (refs w) /\
    forallb calm (emitted w w2) = true.
Proof.
  intros H.
  assert (S : shown (hooks w) Pause = true).
  { apply step_split in H as (w0 & H0 & _). cbn [handle] in H0.
    destruct (shown (hooks w) Pause); [reflexivity | discriminate H0]. }
  cbn [shown] in S. apply andb_true_iff in S as [SR SP].
  apply negb_true_iff in SP.
  pose proof (step_nextHooks w w1 _ H) as H1. cbn [nextHooks] in H1.
  assert (S1 : shown (hooks w1) Resume = true).
  { rewrite H1. cbn. rewrite SR. reflexivity. }
  destruct (step w1 (Click Resume)) as [w2|] eqn:H2.
  2:{ unfold step in H2. cbn [handle] in H2. rewrite S1 in H2. discriminate H2. }
  exists w2. split; [reflexivity|].
  pose proof (step_nextHooks w1 w2 _ H2) as Hh2. cbn [nextHooks] in Hh2.
  pose proof (step_timers w w1 _ H) as T1.
  pose proof (step_timers w1 w2 _ H2) as T2.
  cbn [nextTimers stops] in T1, T2.
  injection T1 as A1 B1 C1. injection T2 as A2 B2 C2.
  split; [|split; [congruence | split; [congruence|]]].
  - rewrite Hh2, H1. cbn. destruct (hooks w) as [a b c d x y]. cbn in *.
    subst. reflexivity.
  - destruct (step_calm w w1 _ H eq_refl) as (l1 & L1 & K1).
    destruct (step_calm w1 w2 _ H2 eq_refl) as (l2 & L2 & K2).
    rewrite (emitted_app w w2 (l1 ++ l2)).
    + rewrite forallb_app, K1, K2. reflexivity.
    + rewrite L2, L1, <- app_assoc. reflexivity.
Qed.

(** ** The recognition object of a click *)

Lemma length_setListening (r : nat) (b : bool) (l : list Recognition) :
  List.length (setListening r b l) = List.length l.
Proof.
  revert r. induction l as [|o l IH]; intros r; destruct r; cbn;
    try reflexivity. rewrite IH. reflexivity.
Qed.

Lemma length_nextRecognitions (e : Event) (w : World) :
  List.length (nextRecognitions e w) = List.length (recognitions w).
Proof.
  destruct e as [b|r event|r error|r|i data|i|i data|t];
    cbn [nextRecognitions]; try reflexivity.
  - destruct b; try reflexivity;
      destruct (recognitionRef (refs w)); try reflexivity;
      apply length_setListening.
  - destruct (listener w r) as [c|]; [|reflexivity].
    destruct (restarts c); rewrite ?length_setListening; reflexivity.
Qed.

Lemma commit_recognitions (p : Hooks) (w : World) :
  speechSupported = true ->
  sameDeps p (hooks w) = false ->
  recognitions (commit p w) = recognitions w ++ [mkRecognition (hooks w) false] /\
  recognitionRef (refs (commit p w)) = Some (List.length (recognitions w)).
Proof.
  intros Sup D. unfold commit. rewrite D.
  open_world w. case_ref recognitionRef0; settle; split; reflexivity.
Qed.

Lemma installed_step (w w' : World) (e : Event) :
  speechSupported = true ->
  installed w -> step w e = Some w' -> installed w'.
Proof.
  intros Sup [R N] H. apply step_split in H as (w0 & H0 & ->).
  destruct (handle_recognitions w w0 e H0) as [R0 L0].
  assert (Len : List.length (recognitions w0) = List.length (recognitions w)).
  { rewrite L0. apply length_nextRecognitions. }
  destruct (sameDeps (hooks w) (hooks w0)) eqn:D.
  - unfold commit. rewrite D. split.
    + rewrite R0, Len. exact R.
    + intros X. rewrite X in Len. destruct (recognitions w); [|discriminate Len].
      apply N. reflexivity.
  - destruct (commit_recognitions (hooks w) w0 Sup D) as [A B]. split.
    + rewrite A, B, length_app. cbn [List.length].
      rewrite Nat.add_1_r. reflexivity.
    + rewrite A. intros X. apply app_eq_nil in X as [_ X]. discriminate X.
Qed.

Lemma installed_mount : speechSupported = true -> installed mount.
Proof.
  intros Sup. unfold installed, mount, blank. settle.
  split; [reflexivity | discriminate].
Qed.

Lemma reachable_installed (w : World) :
  speechSupported = true -> reachable w -> installed w.
Proof.
  intros Sup. revert w. apply (reachable_invariant installed).
  - exact (installed_mount Sup).
  - intros w e w'. apply installed_step, Sup.
Qed.

(** X5: with speech recognition, in every run, a click on Start or on
    Resume calls [start()] on the object in [recognitionRef] and, because
    the click changes [isRecording] or [isPaused], the cleanup of the
    effect calls [stop()] on that same object in the same event.  After it
    [recognitionRef] holds the next object, created by the new render and
    not started. *)
Theorem started_object_is_stopped_at_once (w w' : World) (b : Button) :
  speechSupported = true ->
  reachable w ->
  b = Start \/ b = Resume ->
  step w (Click b) = Some w' ->
  exists k,
    recognitionRef (refs w) = Some k /\
    emitted w w' = startedThenStopped b k /\
    recognitionRef (refs w') = Some (S k) /\
    nth_error (recognitions w') (S k) = Some (mkRecognition (hooks w') false).
Proof.
  intros Sup Re B H.
  destruct (reachable_installed w Sup Re) as [R N].
  exists (Nat.pred (List.length (recognitions w))). split; [exact R|].
  pose proof (step_effects w w' _ H) as He.
  pose proof (step_nextHooks w w' _ H) as Hh.
  assert (Sh : shown (hooks w) b = true).
  { apply step_split in H as (w0 & H0 & _). cbn [handle] in H0.
    destruct (shown (hooks w) b); [reflexivity | discriminate H0]. }
  assert (D : sameDeps (hooks w) (nextHooks (Click b) w) = false).
  { destruct B as [-> | ->]; cbn [shown nextHooks] in *; rewrite ?R;
      destruct (hooks w) as [a p c d x y]; cbn in *.
    - apply negb_true_iff in Sh. subst. reflexivity.
    - apply andb_true_iff in Sh as [-> ->]. reflexivity. }
  unfold renderEffects in He. rewrite D, Sup, app_nil_r in He.
  split.
  { rewrite He. destruct B as [-> | ->]; cbn [effectsOf]; rewrite R;
      reflexivity. }
  apply step_split in H as (w0 & H0 & ->).
  destruct (handle_recognitions w w0 _ H0) as [R0 L0].
  pose proof (handle_hooks w w0 _ H0) as Hh0.
  rewrite <- Hh0 in D.
  destruct (commit_recognitions (hooks w) w0 Sup D) as [A C].
  assert (Len : List.length (recognitions w0) = List.length (recognitions w)).
  { rewrite L0. apply length_nextRecognitions. }
  assert (P : S (Nat.pred (List.length (recognitions w)))
              = List.length (recognitions w0)).
  { rewrite Len. destruct (recognitions w); [contradiction N; reflexivity|].
    reflexivity. }
  rewrite P. split; [exact C|].
  rewrite A, nth_error_app2, Nat.sub_diag by apply Nat.le_refl.
  cbn [nth_error]. rewrite commit_hooks. reflexivity.
Qed.

(** ** Recognition results *)

Lemma truthy_false (s : string) : JS.truthy s = false -> s = "".
Proof. destruct s; [reflexivity | discriminate]. Qed.

(** X9: result events compose: after any sequence of them the transcript
    is the one before followed by the final texts of the batches in the
    order of arrival; [isRecording], [isPaused] and the time are as before
    and nothing was called. *)
Theorem results_are_appended_in_order (es : list Event) :
  forall w w',
    forallb isResult es = true ->
    run w es = Some w' ->
    transcript (hooks w')
    = (transcript (hooks w) ++ String.concat "" (map finalized es))%string /\
    isRecording (hooks w') = isRecording (hooks w) /\
    isPaused (hooks w') = isPaused (hooks w) /\
    recordingTime (hooks w') = recordingTime (hooks w) /\
    log w' = log w.
Proof.
  induction es as [|e es IH]; intros w w' F H.
  - cbn in H. injection H as <-. cbn. rewrite append_empty_r.
    repeat split; reflexivity.
  - cbn [forallb] in F. apply andb_true_iff in F as [Fe F].
    cbn [run] in H. destruct (step w e) as [w1|] eqn:E; [|discriminate H].
    destruct (IH w1 w' F H) as (T & R & P & C & L).
    destruct e as [b|r event|r error|r|i data|i|i data|t]; try discriminate Fe.
    pose proof (step_nextHooks w w1 _ E) as Hh.
    assert (D : sameDeps (hooks w) (nextHooks (Result r event) w) = true).
    { cbn [nextHooks]. destruct (JS.truthy (snd (batch event)));
        unfold sameDeps; cbn [isRecording isPaused]; rewrite !eqb_reflx;
        reflexivity. }
    assert (L1 : log w1 = log w).
    { apply step_split in E as (w0 & H0 & ->).
      rewrite commit_effects_of, (handle_effects w w0 _ H0),
        (handle_hooks w w0 _ H0), D.
      cbn [effectsOf]. rewrite !app_nil_r. reflexivity. }
    cbn [nextHooks] in Hh. cbn [map finalized].
    rewrite concat_cons, T, R, P, C, L, L1, Hh.
    rewrite batch_texts. cbn [snd fst].
    destruct (JS.truthy (finalText (skipn (resultIndex event) (results event))))
      eqn:Tr; cbn [transcript isRecording isPaused recordingTime].
    + rewrite append_assoc. repeat split; reflexivity.
    + rewrite (truthy_false _ Tr). cbn [append].
      repeat split; reflexivity.
Qed.

(** ** A browser without speech recognition *)

Lemma idle_mount : speechSupported = false -> idle mount /\ log mount = unsupportedLog 0.
Proof.
  intros Sup. unfold idle, mount, blank. settle. repeat split; reflexivity.
Qed.

Lemma idle_step (w w' : World) (e : Event) :
  idle w -> step w e = Some w' ->
  e = Click Start /\
  idle w' /\
  log w' = log w ++ [Alert "Speech recognition not available"].
Proof.
  intros (Hh & Hf & Hr & Hi & Hm & Ha) H.
  destruct w as [h f rs iv ni ms ns nc fs lg]. cbn in Hh, Hf, Hr, Hi, Hm, Ha.
  subst. unfold step in H.
  destruct e as [b|r event|r error|r|i data|i|i data|t]; cbn [handle] in H.
  - destruct b; cbn in H; try discriminate H.
    injection H as <-. split; [reflexivity|].
    unfold idle. cbn. repeat split; reflexivity.
  - unfold listener in H. destruct r; discriminate H.
  - unfold listener in H. destruct r; discriminate H.
  - unfold listener in H. destruct r; discriminate H.
  - destruct i; discriminate H.
  - destruct i; discriminate H.
  - destruct i; discriminate H.
  - discriminate H.
Qed.

(** X3: in a browser without speech recognition the component never
    leaves its initial state and never has a recognition object, a timer or
    a media request.  Its log is the report made at mount followed by one
    alert for each click on Start, and a click on Start, which only alerts
    "Speech recognition not available", is the only event that can
    happen. *)
Theorem unsupported_browser_stays_idle (w : World) :
  speechSupported = false ->
  reachable w ->
  idle w /\
  (exists n, log w = unsupportedLog n) /\
  (forall e w', step w e = Some w' ->
                e = Click Start /\
                emitted w w' = [Alert "Speech recognition not available"]).
Proof.
  intros Sup Re.
  assert (Q : idle w /\ exists n, log w = unsupportedLog n).
  { revert w Re.
    apply (reachable_invariant
             (fun w => idle w /\ exists n, log w = unsupportedLog n)).
    - destruct (idle_mount Sup) as [I L]. split; [exact I|]. exists O. exact L.
    - intros w e w' (I & n & L) H.
      destruct (idle_step w w' e I H) as (_ & I' & L').
      split; [exact I'|]. exists (S n). rewrite L', L.
      unfold unsupportedLog. rewrite <- app_assoc. f_equal.
      rewrite <- repeat_cons. reflexivity. }
  destruct Q as [I L]. split; [exact I|]. split; [exact L|].
  intros e w' H. destruct (idle_step w w' e I H) as (E & _ & L').
  split; [exact E|]. apply emitted_app, L'.
Qed.

(** ** What the host is handed *)

Lemma trimEnd_idempotent (s : string) : JS.trimEnd (JS.trimEnd s) = JS.trimEnd s.
Proof.
  induction s as [|c s IH]; [reflexivity|].
  cbn [JS.trimEnd]. destruct (JS.trimEnd s) as [|d t] eqn:E.
  - destruct (JS.isWhiteSpace c) eqn:W; [reflexivity|].
    cbn [JS.trimEnd]. rewrite W. reflexivity.
  - change (JS.trimEnd (String c (String d t)))
      with (match JS.trimEnd (String d t) with
            | EmptyString =>
                if JS.isWhiteSpace c then EmptyString else String c EmptyString
            | u => String c u
            end).
    rewrite IH. reflexivity.
Qed.

Lemma trimStart_head (s : string) :
  match JS.trimStart s with
  | EmptyString => True
  | String c _ => JS.isWhiteSpace c = false
  end.
Proof.
  induction s as [|c s IH]; [exact I|].
  cbn [JS.trimStart]. destruct (JS.isWhiteSpace c) eqn:W; [exact IH | exact W].
Qed.

Lemma trimEnd_head (c : ascii) (s : string) :
  JS.isWhiteSpace c = false ->
  exists t, JS.trimEnd (String c s) = String c t.
Proof.
  intros W. cbn [JS.trimEnd]. destruct (JS.trimEnd s) as [|d t].
  - rewrite W. exists EmptyString. reflexivity.
  - exists (String d t). reflexivity.
Qed.

Lemma trim_idempotent (s : string) : JS.trim (JS.trim s) = JS.trim s.
Proof.
  unfold JS.trim. pose proof (trimStart_head s) as H.
  destruct (JS.trimStart s) as [|c u]; [reflexivity|].
  destruct (trimEnd_head c u H) as [t E]. rewrite E.
  cbn [JS.trimStart]. rewrite H, <- E. apply trimEnd_idempotent.
Qed.

Lemma paired_app (a : list Effect) :
  forall p b, paired p a = true -> paired p (a ++ b) = paired None b.
Proof.
  induction a as [|x a IH]; intros p b H.
  - destruct p; [discriminate H | reflexivity].
  - cbn [app paired] in *. destruct p as [t|], x; try discriminate H;
      try (apply IH; exact H).
    + apply andb_true_iff in H as [H1 H2]. rewrite H1. apply IH, H2.
    + apply andb_true_iff in H as [H1 H2]. rewrite H1. apply IH, H2.
Qed.

Lemma paired_quiet (l : list Effect) :
  callbacks l = [] -> paired None l = true.
Proof.
  induction l as [|x l IH]; [reflexivity|].
  unfold callbacks. cbn [filter paired].
  destruct x; cbn [isCallback]; try discriminate; exact IH.
Qed.

Lemma paired_handover (t : string) : paired None (handover t) = true.
Proof.
  unfold handover. destruct (JS.truthy (JS.trim t)) eqn:T; [|reflexivity].
  cbn [paired]. rewrite T, trim_idempotent, String.eqb_refl.
  destruct onSendSupplied; cbn [paired andb]; rewrite ?String.eqb_refl;
    reflexivity.
Qed.

Lemma callbacks_renderEffects (e : Event) (w : World) :
  callbacks (renderEffects e w) = [].
Proof.
  unfold renderEffects. destruct (sameDeps (hooks w) (nextHooks e w));
    [reflexivity|].
  destruct (recognitionRef (refs w)), speechSupported; reflexivity.
Qed.

(** The effects of a handler are free of callbacks, or they end in one
    hand-over. *)
Lemma effectsOf_shape (e : Event) (w : World) :
  exists a t,
    callbacks a = [] /\
    (effectsOf e w = a \/ effectsOf e w = a ++ handover t).
Proof.
  destruct e as [b|r event|r error|r|i data|i|i data|t]; cbn [effectsOf].
  - destruct b.
    + eexists. exists "". split; [|left; reflexivity].
      destruct (recognitionRef (refs w)); reflexivity.
    + eexists. exists "". split; [|left; reflexivity].
      destruct (recognitionRef (refs w)); reflexivity.
    + eexists. exists "". split; [|left; reflexivity].
      destruct (recognitionRef (refs w)); reflexivity.
    + exists [], "". split; [reflexivity | left; reflexivity].
    + exists (teardown (refs w)), (transcript (hooks w)).
      split; [apply callbacks_teardown | right; reflexivity].
  - exists [], "". split; [reflexivity | left; reflexivity].
  - destruct (String.eqb error "no-speech").
    + eexists. exists "". split; [|left; reflexivity]. reflexivity.
    + destruct (listener w r) as [c|].
      * exists (ConsoleError "Speech recognition error:" error :: teardown (refs w)),
          (transcript c).
        split; [|right; reflexivity].
        unfold callbacks. cbn [filter isCallback]. apply callbacks_teardown.
      * eexists. exists "". split; [|left; reflexivity]. reflexivity.
  - eexists. exists "". split; [|left; reflexivity].
    destruct (listener w r) as [c|]; [destruct (restarts c)|]; reflexivity.
  - eexists. exists "". split; [|left; reflexivity].
    destruct (nth_error (mediaRequests w) i) as [c|]; [|reflexivity].
    unfold sampledEffects.
    destruct (negb (isRecording c) || isPaused c); [reflexivity|].
    destruct (level data); reflexivity.
  - eexists. exists "". split; [|left; reflexivity]. reflexivity.
  - eexists. exists "". split; [|left; reflexivity].
    destruct (nth_error (animationFrames w) i) as [c|]; [|reflexivity].
    unfold sampledEffects.
    destruct (negb (isRecording c) || isPaused c); [reflexivity|].
    destruct (level data); reflexivity.
  - exists [], "". split; [reflexivity | left; reflexivity].
Qed.

Lemma step_log (w w' : World) (e : Event) :
  step w e = Some w' ->
  log w' = log w ++ effectsOf e w ++ renderEffects e w.
Proof.
  intros H. apply step_split in H as (w0 & H0 & ->).
  rewrite commit_effects_of, (handle_effects w w0 e H0),
    (handle_hooks w w0 e H0), (proj1 (handle_recognitions w w0 e H0)).
  unfold renderEffects. rewrite <- app_assoc. reflexivity.
Qed.

Lemma reachable_paired (w : World) : reachable w -> paired None (log w) = true.
Proof.
  revert w. apply (reachable_invariant (fun w => paired None (log w) = true)).
  - unfold mount, blank. destruct speechSupported eqn:Sup; settle; reflexivity.
  - intros w e w' P H. rewrite (step_log w w' e H), (paired_app _ _ _ P).
    pose proof (paired_quiet _ (callbacks_renderEffects e w)) as Q.
    destruct (effectsOf_shape e w) as (a & t & Ca & [E|E]); rewrite E.
    + rewrite (paired_app _ _ _ (paired_quiet a Ca)). exact Q.
    + assert (X : paired None (a ++ handover t) = true).
      { rewrite (paired_app _ _ _ (paired_quiet a Ca)). apply paired_handover. }
      rewrite (paired_app _ _ _ X). exact Q.
Qed.

Lemma paired_prefix (l1 : list Effect) :
  forall p rest,
    paired p (l1 ++ rest) = true ->
    exists p',
      paired p' rest = true /\
      forall t, p' = Some t ->
                (l1 = [] /\ p = Some t) \/
                (onSendSupplied = true /\
                 exists l0, l1 = l0 ++ [OnTranscript t]).
Proof.
  induction l1 as [|x l1 IH]; intros p rest H.
  - exists p. split; [exact H|]. intros t ->. left. split; reflexivity.
  - cbn [app paired] in H.
    assert (Ext : forall p1,
               paired p1 (l1 ++ rest) = true ->
               (forall t, p1 = Some t ->
                          onSendSupplied = true /\ x = OnTranscript t) ->
               exists p',
                 paired p' rest = true /\
                 forall t, p' = Some t ->
                           (x :: l1 = [] /\ p = Some t) \/
                           (onSendSupplied = true /\
                            exists l0, x :: l1 = l0 ++ [OnTranscript t])).
    { intros p1 H1 Hp. destruct (IH p1 rest H1) as (p' & P & K).
      exists p'. split; [exact P|]. intros t E. right.
      destruct (K t E) as [[-> E1]|[Sup [l0 ->]]].
      - destruct (Hp t E1) as [Sup ->]. split; [exact Sup|].
        exists []. reflexivity.
      - split; [exact Sup|]. exists (x :: l0). reflexivity. }
    destruct p as [t0|], x; try discriminate H;
      try (apply (Ext None H); intros ? E; discriminate E).
    + apply andb_true_iff in H as [_ H].
      apply (Ext None H). intros ? E. discriminate E.
    + apply andb_true_iff in H as [_ H].
      apply (Ext _ H). intros u E.
      destruct onSendSupplied; [|discriminate E].
      injection E as <-. split; reflexivity.
Qed.

(** X17: in every run, every text passed to [onTranscript] is not empty
    and is its own trim; when the host supplied [onSend], the call that
    follows at once is [onSend] with the same text; and [onSend] is called
    nowhere else: each of its calls comes right after an [onTranscript]
    with the same text. *)
Theorem host_calls_are_paired (w : World) :
  reachable w ->
  forall l1 x l2,
    log w = l1 ++ x :: l2 ->
    match x with
    | OnTranscript t =>
        t <> "" /\ JS.trim t = t /\
        (onSendSupplied = true -> exists l3, l2 = OnSend t :: l3)
    | OnSend t =>
        onSendSupplied = true /\ exists l0, l1 = l0 ++ [OnTranscript t]
    | _ => True
    end.
Proof.
  intros Re l1 x l2 L. apply reachable_paired in Re. rewrite L in Re.
  destruct (paired_prefix l1 None (x :: l2) Re) as (p & P & K).
  destruct x; try exact I; cbn [paired] in P.
  - destruct p as [t0|]; [discriminate P|].
    apply andb_true_iff in P as [P P2]. apply andb_true_iff in P as [P0 P1].
    split; [intros ->; discriminate P0|].
    split; [apply String.eqb_eq, P1|].
    intros Sup. rewrite Sup in P2. destruct l2 as [|y l2]; [discriminate P2|].
    cbn [paired] in P2. destruct y; try discriminate P2.
    apply andb_true_iff in P2 as [P2 _]. apply String.eqb_eq in P2 as ->.
    exists l2. reflexivity.
  - destruct p as [t0|]; [|discriminate P].
    apply andb_true_iff in P as [P _]. apply String.eqb_eq in P as ->.
    destruct (K t0 eq_refl) as [[_ E]|[Sup Hl]]; [discriminate E|].
    split; assumption.
Qed.

(** ** The clock *)

(** The quotient by 60 of every time below one day, checked on the
    floating-point division itself. *)
Lemma floor_quotient_checked :
  allFrom (Z.to_nat oneDay) 0
    (fun s => JS.Math_floor (PrimFloat.div (JS.number s) 60%float) =? s / 60)
  = true.
Proof. vm_compute. reflexivity. Qed.

Lemma floor_quotient (seconds : Z) :
  0 <= seconds < oneDay ->
  JS.Math_floor (PrimFloat.div (JS.number seconds) 60%float) = seconds / 60.
Proof.
  intros R. apply Z.eqb_eq.
  apply (allFrom_spec _ _ 0 floor_quotient_checked).
  rewrite Z2Nat.id by (unfold oneDay; lia). lia.
Qed.

Lemma toString_digits (z : Z) :
  0 <= z ->
  exists d, d <> Decimal.Nil /\
            JS.toString z = NilEmpty.string_of_uint d /\
            Z.of_uint d = z.
Proof.
  intros Hz. destruct z as [|p|p]; [| |lia].
  - exists (Decimal.D0 Decimal.Nil). repeat split. discriminate.
  - exists (Pos.to_uint p). pose proof (Unsigned.to_uint_nonnil p) as N.
    split; [exact N|]. split.
    + unfold JS.toString. cbn [Z.to_int NilZero.string_of_int].
      unfold NilZero.string_of_uint.
      destruct (Pos.to_uint p); [contradiction N|..]; reflexivity.
    + unfold Z.of_uint. rewrite Unsigned.of_to. reflexivity.
Qed.

Lemma padStart_digits (d : Decimal.uint) :
  d <> Decimal.Nil ->
  exists d', d' <> Decimal.Nil /\
             JS.padStart 2 "0" (NilEmpty.string_of_uint d)
             = NilEmpty.string_of_uint d' /\
             Z.of_uint d' = Z.of_uint d.
Proof.
  intros N. destruct d as [|d|d|d|d|d|d|d|d|d|d]; [contradiction N; reflexivity|..];
    (destruct d as [|d|d|d|d|d|d|d|d|d|d];
     [ eexists (Decimal.D0 _); split; [discriminate|]; split; reflexivity
     | eexists; split; [|split; reflexivity]; discriminate .. ]).
Qed.

Lemma untilColon_digits (d : Decimal.uint) (r : string) :
  untilColon (NilEmpty.string_of_uint d ++ String ":" r)
  = Some (NilEmpty.string_of_uint d, r).
Proof.
  induction d; cbn [NilEmpty.string_of_uint append untilColon];
    try reflexivity; rewrite IHd; reflexivity.
Qed.

Lemma int_of_string_digits (d : Decimal.uint) :
  d <> Decimal.Nil ->
  NilZero.int_of_string (NilEmpty.string_of_uint d) = Some (Decimal.Pos d).
Proof.
  intros N. pose proof (NilEmpty.usu d) as U.
  destruct d; [contradiction N; reflexivity|..];
    cbn [NilEmpty.string_of_uint] in *;
    unfold NilZero.int_of_string, NilZero.uint_of_string;
    rewrite U; reflexivity.
Qed.

Lemma clock_read_back (m r : Z) :
  0 <= m -> 0 <= r ->
  readTime (JS.padStart 2 "0" (JS.toString m) ++ ":" ++
            JS.padStart 2 "0" (JS.toString r))%string
  = Some (m * 60 + r).
Proof.
  intros Hm Hr.
  destruct (toString_digits m Hm) as (dm & Nm & -> & Vm).
  destruct (toString_digits r Hr) as (dr & Nr & -> & Vr).
  destruct (padStart_digits dm Nm) as (dm' & Nm' & -> & Vm').
  destruct (padStart_digits dr Nr) as (dr' & Nr' & -> & Vr').
  unfold readTime. cbn [append]. rewrite untilColon_digits.
  rewrite (int_of_string_digits dm' Nm'), (int_of_string_digits dr' Nr').
  cbn [Z.of_int]. rewrite Vm', Vr', Vm, Vr. reflexivity.
Qed.

(** X1: [formatTime] loses nothing below one day: the display reads back
    as the time it was built from, the digits before the colon as minutes
    and the digits after it as seconds. *)
Theorem formatTime_read_back (seconds : Z) :
  0 <= seconds < oneDay ->
  readTime (formatTime seconds) = Some seconds.
Proof.
  intros R. unfold formatTime. cbv zeta.
  rewrite (floor_quotient seconds R), Z.rem_mod_nonneg by lia.
  rewrite clock_read_back.
  - f_equal. pose proof (Z.div_mod seconds 60). lia.
  - apply Z.div_pos; lia.
  - apply Z.mod_pos_bound. lia.
Qed.

Lemma padStart_width_checked :
  allFrom (Z.to_nat 1440) 0
    (fun m => Nat.eqb (String.length (JS.padStart 2 "0" (JS.toString m)))
                (if m <? 100 then 2%nat else if m <? 1000 then 3%nat else 4%nat))
  = true.
Proof. vm_compute. reflexivity. Qed.

Lemma length_append (a b : string) :
  String.length (a ++ b)%string = (String.length a + String.length b)%nat.
Proof. induction a as [|c a IH]; cbn; [reflexivity | rewrite IH; reflexivity]. Qed.

(** X2: below one day, the display of [formatTime] has the five characters
    of [mm:ss] up to 99:59; the minutes are not reduced to hours, so the
    display has six characters from 100 minutes on and seven from 1000
    minutes on. *)
Theorem formatTime_width (seconds : Z) :
  0 <= seconds < oneDay ->
  String.length (formatTime seconds)
  = if seconds <? 6000 then 5%nat
    else if seconds <? 60000 then 6%nat else 7%nat.
Proof.
  intros R. unfold formatTime. cbv zeta.
  rewrite (floor_quotient seconds R), Z.rem_mod_nonneg by lia.
  unfold oneDay in R.
  assert (Hm : 0 <= seconds / 60 < 1440).
  { split; [apply Z.div_pos; lia | apply Z.div_lt_upper_bound; lia]. }
  pose proof (Z.mod_pos_bound seconds 60 ltac:(lia)) as Hr.
  pose proof (allFrom_spec _ _ 0 padStart_width_checked (seconds / 60)) as Wm.
  pose proof (allFrom_spec _ _ 0 padStart_width_checked (seconds mod 60)) as Wr.
  rewrite Z2Nat.id in Wm, Wr by lia.
  specialize (Wm ltac:(lia)). specialize (Wr ltac:(lia)).
  apply Nat.eqb_eq in Wm, Wr.
  rewrite !length_append, Wm, Wr.
  assert (Hs : (seconds mod 60 <? 100) = true) by (apply Z.ltb_lt; lia).
  rewrite Hs. cbn [String.length].
  assert (Q : forall k, 0 < k -> (seconds / 60 <? k) = (seconds <? k * 60)).
  { intros k Hk. destruct (seconds <? k * 60) eqn:E.
    - apply Z.ltb_lt in E. apply Z.ltb_lt. apply Z.div_lt_upper_bound; lia.
    - apply Z.ltb_ge in E. apply Z.ltb_ge. apply Z.div_le_lower_bound; lia. }
  rewrite (Q 100), (Q 1000) by lia.
  change (100 * 60) with 6000. change (1000 * 60) with 60000.
  destruct (seconds <? 6000); [reflexivity|].
  destruct (seconds <? 60000); reflexivity.
Qed.

(** ** Streams and audio contexts *)

Lemma handle_media (w w0 : World) (e : Event) :
  handle e w = Some w0 ->
  (streamRef (refs w0), nextStream w0, audioContextRef (refs w0), nextContext w0)
  = nextMedia e w.
Proof.
  intros H.
  destruct e as [b|r event|r error|r|i data|i|i data|t];
    cbn [handle nextMedia onClick] in *.
  - destruct b; crack H;
      try (rewrite stopRecording_refs,
             (proj1 (proj2 (stopRecording_counters _ _))),
             (proj2 (proj2 (stopRecording_counters _ _))); reflexivity);
      open_world w; try case_ref recognitionRef0; settle; reflexivity.
  - crack H. unfold onresult. destruct (batch event) as [im fi].
    destruct (JS.truthy fi); open_world w; settle; reflexivity.
  - crack H. unfold onerror, seq_action.
    destruct (String.eqb error "no-speech").
    + open_world w. settle. reflexivity.
    + rewrite stopRecording_refs,
        (proj1 (proj2 (stopRecording_counters _ _))),
        (proj2 (proj2 (stopRecording_counters _ _))).
      open_world w. settle. reflexivity.
  - crack H. open_hooks h.
    destruct isRecording0, isPaused0; open_world w; settle; reflexivity.
  - crack H. open_hooks h.
    destruct isRecording0, isPaused0, (level data) eqn:L; open_world w;
      settle; reflexivity.
  - crack H. open_world w. settle. reflexivity.
  - crack H. open_hooks h.
    destruct isRecording0, isPaused0, (level data) eqn:L; open_world w;
      settle; reflexivity.
  - crack H. open_world w. settle. reflexivity.
Qed.

Lemma step_media (w w' : World) (e : Event) :
  step w e = Some w' ->
  (streamRef (refs w'), nextStream w', audioContextRef (refs w'), nextContext w')
  = nextMedia e w.
Proof.
  intros H. apply step_split in H as (w0 & H0 & ->).
  destruct (commit_counters (hooks w) w0) as (_ & A & B & C & D & _).
  rewrite A, B, C, D. apply handle_media, H0.
Qed.

Lemma released_is_held (w : World) (e : Event) (x : Effect) :
  In x (effectsOf e w ++ renderEffects e w) ->
  isRelease x = true ->
  In x (teardown (refs w)).
Proof.
  intros I Rx. apply in_app_or in I as [I|I].
  2:{ apply In_renderEffects in I. destruct x; discriminate. }
  destruct e as [b|r event|r error|r|i data|i|i data|t]; cbn [effectsOf] in I.
  - destruct b.
    + destruct (recognitionRef (refs w)); cbn in I;
        repeat destruct I as [I|I]; subst; try discriminate Rx; contradiction.
    + destruct (recognitionRef (refs w)); cbn in I;
        repeat destruct I as [I|I]; subst; try discriminate Rx; contradiction.
    + destruct (recognitionRef (refs w)); cbn in I;
        repeat destruct I as [I|I]; subst; try discriminate Rx; contradiction.
    + contradiction.
    + apply in_app_or in I as [I|I]; [exact I|].
      apply In_handover in I. destruct x; discriminate.
  - contradiction.
  - destruct I as [I|I]; [subst; discriminate Rx|].
    destruct (String.eqb error "no-speech"); [contradiction|].
    destruct (listener w r); [|contradiction].
    apply in_app_or in I as [I|I]; [exact I|].
    apply In_handover in I. destruct x; discriminate.
  - destruct (listener w r) as [c|]; [|contradiction].
    destruct (restarts c); cbn in I;
      repeat destruct I as [I|I]; subst; try discriminate Rx; contradiction.
  - destruct (nth_error (mediaRequests w) i) as [c|]; [|contradiction].
    unfold sampledEffects in I.
    destruct (negb (isRecording c) || isPaused c); [|destruct (level data)];
      cbn in I; repeat destruct I as [I|I]; subst; try discriminate Rx;
      contradiction.
  - cbn in I. repeat destruct I as [I|I]; subst; try discriminate Rx;
      contradiction.
  - destruct (nth_error (animationFrames w) i) as [c|]; [|contradiction].
    unfold sampledEffects in I.
    destruct (negb (isRecording c) || isPaused c); [|destruct (level data)];
      cbn in I; repeat destruct I as [I|I]; subst; try discriminate Rx;
      contradiction.
  - contradiction.
Qed.

Lemma teardown_stream (f : Refs) (s : nat) :
  In (TracksStop s) (teardown f) -> streamRef f = Some s.
Proof.
  destruct f as [[r|] [t|] [a|] an [s0|]]; cbn; intros I;
    repeat destruct I as [I|I]; try discriminate I; try contradiction;
    injection I as <-; reflexivity.
Qed.

Lemma teardown_context (f : Refs) (a : nat) :
  In (ContextClose a) (teardown f) -> audioContextRef f = Some a.
Proof.
  destruct f as [[r|] [t|] [a0|] an [s|]]; cbn; intros I;
    repeat destruct I as [I|I]; try discriminate I; try contradiction;
    injection I as <-; reflexivity.
Qed.

Lemma run_log (es : list Event) :
  forall w w', run w es = Some w' ->
               log w' = log w ++ emitted w w'.
Proof.
  induction es as [|e es IH]; intros w w' H.
  - cbn in H. injection H as <-. unfold emitted. rewrite skipn_all.
    symmetry. apply app_nil_r.
  - cbn [run] in H. destruct (step w e) as [w1|] eqn:E; [|discriminate H].
    pose proof (IH w1 w' H) as L. pose proof (step_log w w1 e E) as L1.
    rewrite L, L1. rewrite <- app_assoc. f_equal. symmetry.
    apply emitted_app. rewrite L, L1, <- app_assoc. reflexivity.
Qed.

(** X14: a stream that was handed out and is not the one in [streamRef],
    and an audio context that is not the one in [audioContextRef], are
    never released: whatever follows, the tracks of that stream are not
    stopped and that context is not closed. *)
Theorem overwritten_media_are_never_released (w : World) (s a : nat) :
  (s < nextStream w)%nat ->
  streamRef (refs w) <> Some s ->
  (a < nextContext w)%nat ->
  audioContextRef (refs w) <> Some a ->
  forall es w',
    run w es = Some w' ->
    ~ In (TracksStop s) (emitted w w') /\
    ~ In (ContextClose a) (emitted w w').
Proof.
  intros Hs Ns Ha Na es w' H.
  pose (P := fun v : World =>
               (s < nextStream v)%nat /\ streamRef (refs v) <> Some s /\
               (a < nextContext v)%nat /\ audioContextRef (refs v) <> Some a /\
               exists l, log v = log w ++ l /\
                         ~ In (TracksStop s) l /\ ~ In (ContextClose a) l).
  assert (Q : P w').
  { revert H. apply (run_invariant P).
    - clear. intros v e v' (Hs & Ns & Ha & Na & l & L & Ts & Ca) H.
      pose proof (step_media v v' e H) as M.
      pose proof (step_log v v' e H) as L'.
      assert (R : forall x, In x (effectsOf e v ++ renderEffects e v) ->
                            isRelease x = true -> In x (teardown (refs v))).
      { intros x. apply released_is_held. }
      assert (K : (streamRef (refs v') = streamRef (refs v) /\
                   nextStream v' = nextStream v /\
                   audioContextRef (refs v') = audioContextRef (refs v) /\
                   nextContext v' = nextContext v) \/
                  (streamRef (refs v') = Some (nextStream v) /\
                   nextStream v' = S (nextStream v) /\
                   audioContextRef (refs v') = Some (nextContext v) /\
                   nextContext v' = S (nextContext v))).
      { destruct e; cbn [nextMedia] in M; injection M as M1 M2 M3 M4;
          try (left; repeat split; assumption).
        right. repeat split; assumption. }
      unfold P.
      assert (E : exists l', log v' = log w ++ l' /\
                             ~ In (TracksStop s) l' /\ ~ In (ContextClose a) l').
      { exists (l ++ effectsOf e v ++ renderEffects e v).
        split; [rewrite L', L, <- app_assoc; reflexivity|]. split.
        - intros I. apply in_app_or in I as [I|I]; [exact (Ts I)|].
          apply Ns, teardown_stream, (R _ I). reflexivity.
        - intros I. apply in_app_or in I as [I|I]; [exact (Ca I)|].
          apply Na, teardown_context, (R _ I). reflexivity. }
      destruct K as [(K1 & K2 & K3 & K4)|(K1 & K2 & K3 & K4)];
        rewrite K1, K2, K3, K4.
      + repeat (split; [assumption|]). exact E.
      + split; [apply Nat.lt_lt_succ_r, Hs|].
        split; [intros X; injection X as X; rewrite X in Hs;
                exact (Nat.lt_irrefl _ Hs)|].
        split; [apply Nat.lt_lt_succ_r, Ha|].
        split; [intros X; injection X as X; rewrite X in Ha;
                exact (Nat.lt_irrefl _ Ha)|].
        exact E.
    - unfold P. repeat (split; [assumption|]). exists [].
      split; [symmetry; apply app_nil_r|]. split; intros [].
  }
  destruct Q as (_ & _ & _ & _ & l & L & Ts & Ca).
  rewrite (emitted_app w w' l L). split; assumption.
Qed.

(** ** Recognition errors in a run *)

(** X8: in every run, a recognition error other than "no-speech" stops
    the recording, and what it hands to the host is the trimmed transcript
    of the render that installed the handlers of that object, a render
    that was not recording or was paused; the transcript of the state at
    the time of the error plays no part. *)
Theorem error_hands_over_the_text_of_an_old_render
  (w w' : World) (r : nat) (error : string) :
  reachable w ->
  String.eqb error "no-speech" = false ->
  step w (Error r error) = Some w' ->
  exists c,
    listener w r = Some c /\
    restarts c = false /\
    hooks w' = stopped (hooks w) /\
    callbacks (emitted w w') = handover (transcript c).
Proof.
  intros Re N H. apply reachable_stale in Re.
  pose proof (step_nextHooks w w' _ H) as Hh.
  pose proof (step_effects w w' _ H) as He.
  cbn [nextHooks effectsOf] in Hh, He. rewrite N in Hh, He.
  apply step_split in H as (w0 & H0 & _). cbn [handle] in H0.
  destruct (listener w r) as [c|] eqn:E; [|discriminate H0].
  exists c. split; [reflexivity|].
  split; [exact (stale_listener w r c Re E)|]. split; [exact Hh|].
  rewrite He, callbacks_app, callbacks_renderEffects, app_nil_r.
  unfold callbacks. cbn [filter isCallback]. rewrite filter_app.
  fold (callbacks (teardown (refs w))).
  fold (callbacks (handover (transcript c))).
  rewrite callbacks_teardown, callbacks_handover. reflexivity.
Qed.

(** ** The visualizer *)

Lemma random_times_zero (random : float) :
  PrimFloat.leb 0%float random = true ->
  PrimFloat.ltb random 1%float = true ->
  PrimFloat.add (PrimFloat.mul random 0%float) 20%float = 20%float.
Proof.
  intros L U. apply Prim2SF_inj.
  rewrite FloatAxioms.add_spec, FloatAxioms.mul_spec.
  rewrite FloatAxioms.leb_spec in L. rewrite FloatAxioms.ltb_spec in U.
  destruct (Prim2SF random) as [s|s| |s m e] eqn:E.
  - destruct s; reflexivity.
  - destruct s; [discriminate L | discriminate U].
  - discriminate L.
  - destruct s; [discriminate L | reflexivity].
Qed.

(** X16: in every run the level bar of the visualizer has width 0 and
    every bar of the waveform has height 20, whatever number in [0, 1)
    [Math.random()] returns. *)
Theorem visualizer_is_static (w : World) (random : float) :
  reachable w ->
  PrimFloat.leb 0%float random = true ->
  PrimFloat.ltb random 1%float = true ->
  levelBarWidth (hooks w) = 0%float /\
  waveBarHeight (hooks w) random = 20%float.
Proof.
  intros Re L U. apply reachable_quiet in Re as (A & _ & _).
  unfold levelBarWidth, waveBarHeight. rewrite A. split; [reflexivity|].
  destruct (isPaused (hooks w)); [reflexivity|].
  apply random_times_zero; assumption.
Qed.

End VoiceInput.

(** * Runs of the component

    Speech recognition is supported and the host passes [onSend]. *)

(** C1, as stated: in a session stopped by the button, a recognition error
    that arrives afterwards on the object started by Resume runs
    [stopRecording] again, with no start in between.  The second call
    clears the timer, stops the tracks and closes the audio context a
    second time, and it calls [onTranscript] and [onSend] a second time. *)
Lemma stop_twice_releases_twice :
  exists w1 w2 : World,
    run true true (mount true) pausedSession = Some w1 /\
    isRecording (hooks w1) = false /\
    In (OnTranscript "hi") (log w1) /\
    step true true w1 (Error 2 "network") = Some w2 /\
    emitted w1 w2
    = [ConsoleError "Speech recognition error:" "network"; RecognitionStop 4;
       ClearInterval 0; TracksStop 0; ContextClose 0;
       OnTranscript "hi"; OnSend "hi"] /\
    filter isRelease (log w2)
    = [ClearInterval 0; TracksStop 0; ContextClose 0;
       ClearInterval 0; TracksStop 0; ContextClose 0] /\
    callbacks (log w2)
    = [OnTranscript "hi"; OnSend "hi"; OnTranscript "hi"; OnSend "hi"].
Proof.
  eexists. eexists.
  split; [vm_compute; reflexivity|].
  split; [reflexivity|].
  split; [vm_compute; tauto|].
  split; [vm_compute; reflexivity|].
  repeat split; vm_compute; reflexivity.
Qed.

(** C4, at a session in which a text is finalized before the error: the
    recognition object started by the click on Start carries the handlers
    of the first render, whose [transcript] constant is empty.  After the
    result "hello" is finalized, the error "network" on that object stops
    the session ([isRecording] false) and leaves ["hello "] in [transcript],
    but [onerror] runs the [stopRecording] of the first render: the trimmed
    text it tests is empty and neither [onTranscript] nor [onSend] is
    called.  The finalized text is not handed over. *)
Theorem error_after_final_text_is_not_handed_over :
  exists w0 w : World,
    run true true (mount true) [Click Start; Result 0 (final "hello")] = Some w0 /\
    isRecording (hooks w0) = true /\
    transcript (hooks w0) = "hello " /\
    option_map transcript (listener w0 0) = Some "" /\
    step true true w0 (Error 0 "network") = Some w /\
    isRecording (hooks w) = false /\
    transcript (hooks w) = "hello " /\
    callbacks (log w) = [].
Proof.
  eexists. eexists.
  split; [vm_compute; reflexivity|].
  split; [reflexivity|].
  split; [reflexivity|].
  split; [reflexivity|].
  split; [vm_compute; reflexivity|].
  repeat split; reflexivity.
Qed.

(** C5, at the first stream of a session: the click on Start starts the
    recognition object installed by the first render, whose [onend] reads
    [isRecording] false; the render that follows replaces it in
    [recognitionRef] by a new object that nothing starts.  When the started
    object ends while the state is recording and not paused, [onend] does
    not start it again, and no recognition object is listening any more. *)
Theorem end_while_recording_does_not_restart :
  exists w w' : World,
    run true true (mount true) [Click Start] = Some w /\
    isRecording (hooks w) = true /\ isPaused (hooks w) = false /\
    map listening (recognitions w) = [true; false] /\
    option_map isRecording (listener w 0) = Some false /\
    step true true w (End 0) = Some w' /\
    isRecording (hooks w') = true /\ isPaused (hooks w') = false /\
    emitted w w' = [] /\
    map listening (recognitions w') = [false; false].
Proof.
  eexists. eexists.
  split; [vm_compute; reflexivity|].
  split; [reflexivity|].
  split; [reflexivity|].
  split; [reflexivity|].
  split; [reflexivity|].
  split; [vm_compute; reflexivity|].
  repeat split; reflexivity.
Qed.


(** C7, at the first sampling tick of a session.  After the click on Start
    the state is recording and not paused, and the [startAudioMonitoring]
    that waits for the microphone belongs to the render whose Start button
    was clicked, where [isRecording] is false.  When the microphone is
    granted and every bin reads 128, [Math.min(100, (average / 255) * 150)]
    is 75.29..., but [updateLevel] returns at its guard: [audioLevel] stays
    0 while the state is still recording and not paused, and no further
    tick is requested. *)
Theorem sampling_tick_while_recording_stores_nothing :
  exists w w' : World,
    run true true (mount true) [Click Start] = Some w /\
    isRecording (hooks w) = true /\
    isPaused (hooks w) = false /\
    option_map isRecording (nth_error (mediaRequests w) 0) = Some false /\
    level halfScale = Some 0x1.2d2d2d2d2d2d3p+6%float /\
    step true true w (MediaResolved 0 halfScale) = Some w' /\
    isRecording (hooks w') = true /\
    isPaused (hooks w') = false /\
    audioLevel (hooks w') = 0%float /\
    animationFrames w' = [] /\
    filter (fun x => match x with RequestAnimationFrame => true | _ => false end)
      (log w') = [].
Proof.
  eexists. eexists.
  split; [vm_compute; reflexivity|].
  split; [reflexivity|].
  split; [reflexivity|].
  split; [reflexivity|].
  split; [vm_compute; reflexivity|].
  split; [vm_compute; reflexivity|].
  repeat split; reflexivity.
Qed.

(** C10, as stated: after a click on Stop that leaves ["wor"] in
    [interimTranscript], a final result delivered by the object that was
    stopped empties [interimTranscript] and extends [transcript], with no
    click on Clear or Start. *)
Lemma late_result_changes_transcripts :
  exists w1 w2 : World,
    run true true (mount true)
      [Click Start; Result 0 (interim "wor"); Click Stop] = Some w1 /\
    isRecording (hooks w1) = false /\
    interimTranscript (hooks w1) = "wor" /\
    transcript (hooks w1) = "" /\
    step true true w1 (Result 0 (final "word")) = Some w2 /\
    interimTranscript (hooks w2) = "" /\
    transcript (hooks w2) = "word ".
Proof.
  eexists. eexists.
  split; [vm_compute; reflexivity|].
  split; [reflexivity|].
  split; [reflexivity|].
  split; [reflexivity|].
  split; [vm_compute; reflexivity|].
  split; reflexivity.
Qed.

(** ** The general statements at concrete runs *)

(** Bins at half scale give [(128 / 255) * 150], about 75.29; full-scale
    bins would give 150 and are clamped to 100. *)
Example level_halfScale :
  level halfScale = Some 0x1.2d2d2d2d2d2d3p+6%float /\
  level (repeat Byte.xff bufferLength) = Some 100%float.
Proof. split; vm_compute; reflexivity. Qed.

Lemma stop_hands_over_once_witness :
  exists w w' : World,
    run true true (mount true) [Click Start; Result 0 (final " hi ")] = Some w /\
    step true true w (Click Stop) = Some w' /\
    exists pre post,
      emitted w w'
      = pre ++
        (if JS.truthy (JS.trim (transcript (hooks w)))
         then OnTranscript (JS.trim (transcript (hooks w))) ::
              [OnSend (JS.trim (transcript (hooks w)))]
         else []) ++ post /\
      callbacks pre = [] /\ callbacks post = [].
Proof.
  eexists. eexists.
  split; [vm_compute; reflexivity|].
  split; [vm_compute; reflexivity|].
  apply (proj1 (stop_hands_over_once true true)).
  vm_compute. reflexivity.
Defined.

Lemma sampling_stops_when_not_recording_witness :
  exists w w' : World,
    run true true (mount true) [Click Start; Click Pause] = Some w /\
    isPaused (hooks w) = true /\
    step true true w (MediaResolved 0 halfScale) = Some w' /\
    audioLevel (hooks w') = audioLevel (hooks w) /\
    animationFrames w' = [] /\
    ~ In RequestAnimationFrame (emitted w w').
Proof.
  eexists. eexists.
  split; [vm_compute; reflexivity|].
  split; [reflexivity|].
  split; [vm_compute; reflexivity|].
  apply (proj2 (sampling_stops_when_not_recording true true) _ _
           (MediaResolved 0 halfScale)).
  - exists [Click Start; Click Pause]. vm_compute. reflexivity.
  - right. reflexivity.
  - reflexivity.
  - vm_compute. reflexivity.
Defined.

Lemma audioLevel_in_range_witness :
  exists w : World,
    run true true (mount true)
      [Click Start; MediaResolved 0 halfScale; Click Pause] = Some w /\
    inUnitPercent (audioLevel (hooks w)) = true /\
    (isRecording (hooks w) = false \/ isPaused (hooks w) = true ->
     audioLevel (hooks w) = 0%float).
Proof.
  eexists.
  split; [vm_compute; reflexivity|].
  apply (proj2 (audioLevel_in_range true true)).
  exists [Click Start; MediaResolved 0 halfScale; Click Pause].
  vm_compute. reflexivity.
Defined.

Lemma timer_runs_until_stop_witness :
  exists w w' : World,
    run true true (mount true) [Click Start; MediaResolved 0 halfScale] = Some w /\
    intervals w = [0%nat] /\
    step true true w (Click Pause) = Some w' /\
    isPaused (hooks w') = true /\
    intervals w' = intervals w /\
    (forall t, In t (intervals w') ->
               exists w'', step true true w' (IntervalTick t) = Some w'' /\
                           isPaused (hooks w'') = true /\
                           recordingTime (hooks w'')
                           = recordingTime (hooks w') + 1).
Proof.
  eexists. eexists.
  split; [vm_compute; reflexivity|].
  split; [reflexivity|].
  split; [vm_compute; reflexivity|].
  apply (proj1 (proj2 (proj2 (proj2 (timer_runs_until_stop true true))))).
  vm_compute. reflexivity.
Defined.

Lemma clear_only_empties_transcripts_witness :
  exists w w' : World,
    run true true (mount true)
      [Click Start; Result 0 (final "hello"); Result 0 (interim "wor")] = Some w /\
    step true true w (Click Clear) = Some w' /\
    w' = cleared w /\ isRecording (hooks w') = true.
Proof.
  eexists. eexists.
  split; [vm_compute; reflexivity|].
  split; [vm_compute; reflexivity|].
  apply (proj2 (clear_only_empties_transcripts true true)).
  vm_compute. reflexivity.
Defined.

Lemma stop_keeps_transcripts_witness :
  exists w w' : World,
    run true true (mount true)
      [Click Start; Result 0 (final "hello"); Result 0 (interim "wor")] = Some w /\
    step true true w (Click Stop) = Some w' /\
    transcript (hooks w') = transcript (hooks w) /\
    interimTranscript (hooks w') = interimTranscript (hooks w).
Proof.
  eexists. eexists.
  split; [vm_compute; reflexivity|].
  split; [vm_compute; reflexivity|].
  apply (proj1 (proj2 (stop_keeps_transcripts true true))).
  vm_compute. reflexivity.
Defined.

(** * The component in its host *)

Lemma called_app (c : Chat.Hooks) (a b : list Effect) (v : Chat.World) :
  Chat.called c (a ++ b) v = Chat.called c b (Chat.called c a v).
Proof.
  unfold Chat.called, Chat.perform. rewrite map_app, fold_left_app. reflexivity.
Qed.

Lemma called_quiet (c : Chat.Hooks) (l : list Effect) (v : Chat.World) :
  callbacks l = [] -> Chat.called c l v = v.
Proof.
  induction l as [|x l IH]; [reflexivity|].
  unfold callbacks. cbn [filter].
  destruct x; cbn [isCallback]; try discriminate; exact IH.
Qed.

(** X18: after [handleVoiceTranscript] and [handleVoiceSend] of a render
    ran with a text, the input cell holds that text and one timeout is
    pending.  When it fires, the [handleSendMessage] of that render runs:
    if the input of that render was blank, nothing is sent and the text
    stays in the input cell; otherwise the input of that render is posted
    and appended to the messages of that render, and the input cell is
    emptied.  The text itself is not what is sent. *)
Theorem voice_send_posts_the_input_of_its_render
  (c : Chat.Hooks) (text : string) (v : Chat.World) :
  let v1 := Chat.handleVoiceSend c text (Chat.handleVoiceTranscript text v) in
  Chat.hooks v1
  = Chat.mkHooks (Chat.messages (Chat.hooks v)) text
      (Chat.isSending (Chat.hooks v)) false /\
  Chat.timeouts v1 = Chat.timeouts v ++ [c] /\
  Chat.log v1 = Chat.log v /\
  exists v2,
    Chat.timeoutFired (List.length (Chat.timeouts v)) v1 = Some v2 /\
    Chat.timeouts v2 = Chat.timeouts v /\
    (Chat.hooks v2, Chat.log v2) = Chat.sent c v1.
Proof.
  destruct v as [[ms inp sending shown] ts lg].
  cbv beta iota zeta delta
    [Chat.handleVoiceSend Chat.handleVoiceTranscript Chat.perform fold_left
     Chat.setInput Chat.setShowVoiceInput Chat.setTimeout Chat.withHooks
     Chat.hooks Chat.timeouts Chat.log Chat.messages Chat.isSending
     Chat.input Chat.showVoiceInput].
  repeat (split; [reflexivity|]).
  unfold Chat.timeoutFired. cbn [Chat.timeouts Chat.hooks Chat.log].
  rewrite nth_error_app2, Nat.sub_diag by apply Nat.le_refl. cbn [nth_error].
  assert (F : firstn (List.length ts) (ts ++ [c]) = ts).
  { rewrite firstn_app, Nat.sub_diag, firstn_all. cbn. apply app_nil_r. }
  assert (S1 : skipn (S (List.length ts)) (ts ++ [c]) = []).
  { apply skipn_all2. rewrite length_app. cbn. rewrite Nat.add_1_r.
    apply Nat.le_refl. }
  rewrite F, S1, app_nil_r.
  eexists. split; [reflexivity|].
  unfold Chat.handleSendMessage, Chat.sent.
  destruct (JS.truthy (JS.trim (Chat.input c))); cbn; split; reflexivity.
Qed.

(** X19: a click on Stop in the voice input of [ChatComponent] runs, when
    the trimmed transcript is not empty, [handleVoiceTranscript] and then
    [handleVoiceSend] of the host with that text, and leaves the host as
    it is when the trimmed transcript is empty. *)
Theorem stop_calls_the_host
  (speechSupported : bool) (w w' : World) (c : Chat.Hooks) (v : Chat.World) :
  step speechSupported true w (Click Stop) = Some w' ->
  Chat.called c (emitted w w') v
  = if JS.truthy (JS.trim (transcript (hooks w)))
    then Chat.handleVoiceSend c (JS.trim (transcript (hooks w)))
           (Chat.handleVoiceTranscript (JS.trim (transcript (hooks w))) v)
    else v.
Proof.
  intros H. rewrite (step_effects _ _ w w' _ H). cbn [effectsOf].
  rewrite !called_app.
  rewrite (called_quiet c (teardown (refs w)) v (callbacks_teardown _)).
  rewrite (called_quiet c (renderEffects _ _ _) _ (callbacks_renderEffects _ _ _)).
  unfold handover. destruct (JS.truthy (JS.trim (transcript (hooks w))));
    reflexivity.
Qed.

(** * The further properties at concrete runs *)

Lemma formatTime_read_back_witness :
  readTime (formatTime 75) = Some 75.
Proof. apply (formatTime_read_back 75). unfold oneDay. lia. Defined.

Lemma formatTime_width_witness :
  String.length (formatTime 6000) = 6%nat.
Proof. apply (formatTime_width 6000). unfold oneDay. lia. Defined.

Lemma unsupported_browser_stays_idle_witness :
  exists w : World,
    run false true (mount false) [Click Start; Click Start] = Some w /\
    idle w /\
    (exists n, log w = unsupportedLog n) /\
    (forall e w', step false true w e = Some w' ->
                  e = Click Start /\
                  emitted w w' = [Alert "Speech recognition not available"]).
Proof.
  eexists. split; [vm_compute; reflexivity|].
  apply (unsupported_browser_stays_idle false true); [reflexivity|].
  exists [Click Start; Click Start]. vm_compute. reflexivity.
Defined.

Lemma paused_only_while_recording_witness :
  exists w : World,
    run true true (mount true) [Click Start; Click Pause] = Some w /\
    isPaused (hooks w) = true /\
    isRecording (hooks w) = true.
Proof.
  eexists. split; [vm_compute; reflexivity|].
  split; [vm_compute; reflexivity|].
  apply (paused_only_while_recording true true).
  - exists [Click Start; Click Pause]. vm_compute. reflexivity.
  - vm_compute. reflexivity.
Defined.

Lemma started_object_is_stopped_at_once_witness :
  exists w' : World,
    step true true (mount true) (Click Start) = Some w' /\
    exists k,
      recognitionRef (refs (mount true)) = Some k /\
      emitted (mount true) w' = startedThenStopped Start k /\
      recognitionRef (refs w') = Some (S k) /\
      nth_error (recognitions w') (S k) = Some (mkRecognition (hooks w') false).
Proof.
  eexists. split; [vm_compute; reflexivity|].
  apply (started_object_is_stopped_at_once true true (mount true) _ Start).
  - reflexivity.
  - exists []. reflexivity.
  - left. reflexivity.
  - vm_compute. reflexivity.
Defined.

Lemma started_object_is_idle_witness :
  exists w : World,
    run true true (mount true) [Click Start] = Some w /\
    recognitionRef (refs w) = Some 1%nat /\
    listener w 1 = None.
Proof.
  eexists. split; [vm_compute; reflexivity|].
  split; [vm_compute; reflexivity|].
  apply (started_object_is_idle true true).
  - exists [Click Start]. vm_compute. reflexivity.
  - vm_compute. reflexivity.
Defined.

Lemma onend_never_restarts_witness :
  exists w w' : World,
    run true true (mount true) [Click Start] = Some w /\
    step true true w (End 0) = Some w' /\
    hooks w' = hooks w /\
    emitted w w' = [] /\
    listener w' 0 = None.
Proof.
  eexists. eexists. split; [vm_compute; reflexivity|].
  split; [vm_compute; reflexivity|].
  apply (onend_never_restarts true true).
  - exists [Click Start]. vm_compute. reflexivity.
  - vm_compute. reflexivity.
Defined.

Lemma error_hands_over_the_text_of_an_old_render_witness :
  exists w w' : World,
    run true true (mount true) [Click Start; Result 0 (final "hi")] = Some w /\
    step true true w (Error 0 "network") = Some w' /\
    exists c,
      listener w 0 = Some c /\
      restarts c = false /\
      hooks w' = stopped (hooks w) /\
      callbacks (emitted w w') = handover true (transcript c).
Proof.
  eexists. eexists. split; [vm_compute; reflexivity|].
  split; [vm_compute; reflexivity|].
  apply (error_hands_over_the_text_of_an_old_render true true _ _ 0%nat "network").
  - exists [Click Start; Result 0 (final "hi")]. vm_compute. reflexivity.
  - reflexivity.
  - vm_compute. reflexivity.
Defined.

Lemma results_are_appended_in_order_witness :
  exists w w' : World,
    run true true (mount true) [Click Start] = Some w /\
    run true true w
      [Result 0 (final "hello"); Result 0 (interim "wor");
       Result 0 (final "world")] = Some w' /\
    transcript (hooks w')
    = (transcript (hooks w) ++
       String.concat ""
         (map finalized
            [Result 0 (final "hello"); Result 0 (interim "wor");
             Result 0 (final "world")]))%string /\
    isRecording (hooks w') = isRecording (hooks w) /\
    isPaused (hooks w') = isPaused (hooks w) /\
    recordingTime (hooks w') = recordingTime (hooks w) /\
    log w' = log w.
Proof.
  eexists. eexists. split; [vm_compute; reflexivity|].
  split; [vm_compute; reflexivity|].
  apply (results_are_appended_in_order true true
           [Result 0 (final "hello"); Result 0 (interim "wor");
            Result 0 (final "world")]).
  - reflexivity.
  - vm_compute. reflexivity.
Defined.

Lemma pause_then_resume_witness :
  exists w w1 : World,
    run true true (mount true) [Click Start; Result 0 (final "hi")] = Some w /\
    step true true w (Click Pause) = Some w1 /\
    exists w2,
      step true true w1 (Click Resume) = Some w2 /\
      hooks w2 = hooks w /\
      intervals w2 = intervals w /\
      timerRef (refs w2) = timerRef (refs w) /\
      forallb calm (emitted w w2) = true.
Proof.
  eexists. eexists. split; [vm_compute; reflexivity|].
  split; [vm_compute; reflexivity|].
  apply (pause_then_resume true true).
  vm_compute. reflexivity.
Defined.

Lemma microphone_refused_witness :
  exists w w' : World,
    run true true (mount true) [Click Start] = Some w /\
    step true true w (MediaRejected 0) = Some w' /\
    hooks w' = hooks w /\
    recognitions w' = recognitions w /\
    emitted w w'
    = [ConsoleError "Error accessing microphone:" "";
       Alert "Could not access microphone. Please grant permission.";
       SetInterval (nextInterval w)] /\
    timerRef (refs w') = Some (nextInterval w) /\
    intervals w' = intervals w ++ [nextInterval w] /\
    exists w'', step true true w' (IntervalTick (nextInterval w)) = Some w'' /\
                recordingTime (hooks w'') = recordingTime (hooks w) + 1.
Proof.
  eexists. eexists. split; [vm_compute; reflexivity|].
  split; [vm_compute; reflexivity|].
  apply (microphone_refused true true _ _ 0%nat).
  vm_compute. reflexivity.
Defined.

Lemma microphone_granted_in_any_state_witness :
  exists w w' : World,
    run true true (mount true) [Click Start; Click Stop] = Some w /\
    isRecording (hooks w) = false /\
    step true true w (MediaResolved 0 halfScale) = Some w' /\
    hooks w' = hooks w /\
    emitted w w' = [SetInterval (nextInterval w)] /\
    streamRef (refs w') = Some (nextStream w) /\
    audioContextRef (refs w') = Some (nextContext w) /\
    timerRef (refs w') = Some (nextInterval w) /\
    intervals w' = intervals w ++ [nextInterval w].
Proof.
  eexists. eexists. split; [vm_compute; reflexivity|].
  split; [vm_compute; reflexivity|].
  split; [vm_compute; reflexivity|].
  apply (microphone_granted_in_any_state true true _ _ 0%nat halfScale).
  - exists [Click Start; Click Stop]. vm_compute. reflexivity.
  - vm_compute. reflexivity.
Defined.

Lemma orphaned_timer_is_never_cleared_witness :
  exists w w' : World,
    run true true (mount true) doubleGrant = Some w /\
    run true true w [Click Stop] = Some w' /\
    In 0%nat (intervals w') /\
    timerRef (refs w') <> Some 0%nat /\
    exists w'', step true true w' (IntervalTick 0) = Some w'' /\
                recordingTime (hooks w'') = recordingTime (hooks w') + 1.
Proof.
  eexists. eexists. split; [vm_compute; reflexivity|].
  split; [vm_compute; reflexivity|].
  eapply (orphaned_timer_is_never_cleared true true) with (es := [Click Stop]).
  - exists doubleGrant. vm_compute. reflexivity.
  - left. reflexivity.
  - discriminate.
  - vm_compute. reflexivity.
Defined.

Lemma overwritten_media_are_never_released_witness :
  exists w w' : World,
    run true true (mount true) doubleGrant = Some w /\
    run true true w [Click Stop] = Some w' /\
    ~ In (TracksStop 0) (emitted w w') /\
    ~ In (ContextClose 0) (emitted w w').
Proof.
  eexists. eexists. split; [vm_compute; reflexivity|].
  split; [vm_compute; reflexivity|].
  eapply (overwritten_media_are_never_released true true)
    with (es := [Click Stop]).
  - vm_compute. apply le_S, le_n.
  - discriminate.
  - vm_compute. apply le_S, le_n.
  - discriminate.
  - vm_compute. reflexivity.
Defined.

Lemma meter_never_moves_witness :
  exists w : World,
    run true true (mount true) [Click Start; MediaResolved 0 halfScale] = Some w /\
    audioLevel (hooks w) = 0%float /\
    animationFrames w = [] /\
    ~ In RequestAnimationFrame (log w).
Proof.
  eexists. split; [vm_compute; reflexivity|].
  apply (meter_never_moves true true).
  exists [Click Start; MediaResolved 0 halfScale]. vm_compute. reflexivity.
Defined.

Lemma visualizer_is_static_witness :
  exists w : World,
    run true true (mount true) [Click Start; MediaResolved 0 halfScale] = Some w /\
    levelBarWidth (hooks w) = 0%float /\
    waveBarHeight (hooks w) 0.5%float = 20%float.
Proof.
  eexists. split; [vm_compute; reflexivity|].
  apply (visualizer_is_static true true _ 0.5%float).
  - exists [Click Start; MediaResolved 0 halfScale]. vm_compute. reflexivity.
  - reflexivity.
  - reflexivity.
Defined.

Lemma host_calls_are_paired_witness :
  exists w : World,
    run true true (mount true) pausedSession = Some w /\
    log w
    = [RecognitionStart 0; GetUserMedia; RecognitionStop 0; SetInterval 0;
       RecognitionStop 1; RecognitionStop 1; RecognitionStart 2;
       RecognitionStop 2; RecognitionStop 3; ClearInterval 0; TracksStop 0;
       ContextClose 0] ++ OnTranscript "hi" :: [OnSend "hi"; RecognitionStop 3] /\
    "hi" <> "" /\
    JS.trim "hi" = "hi" /\
    (true = true ->
     exists l3, [OnSend "hi"; RecognitionStop 3] = OnSend "hi" :: l3).
Proof.
  eexists. split; [vm_compute; reflexivity|].
  split; [vm_compute; reflexivity|].
  eapply (host_calls_are_paired true true) with
    (l1 := [RecognitionStart 0; GetUserMedia; RecognitionStop 0; SetInterval 0;
            RecognitionStop 1; RecognitionStop 1; RecognitionStart 2;
            RecognitionStop 2; RecognitionStop 3; ClearInterval 0; TracksStop 0;
            ContextClose 0])
    (x := OnTranscript "hi").
  - exists pausedSession. vm_compute. reflexivity.
  - vm_compute. reflexivity.
Defined.

Lemma stop_calls_the_host_witness :
  exists w w' : World,
    run true true (mount true) [Click Start; Result 0 (final " hi ")] = Some w /\
    step true true w (Click Stop) = Some w' /\
    Chat.called (Chat.mkHooks [] "typed" false true) (emitted w w')
      (Chat.mkWorld (Chat.mkHooks [] "typed" false true) [] [])
    = Chat.handleVoiceSend (Chat.mkHooks [] "typed" false true) "hi"
        (Chat.handleVoiceTranscript "hi"
           (Chat.mkWorld (Chat.mkHooks [] "typed" false true) [] [])).
Proof.
  eexists. eexists. split; [vm_compute; reflexivity|].
  split; [vm_compute; reflexivity|].
  match goal with
  | |- Chat.called ?c (emitted ?w ?w') ?v = _ =>
      rewrite (stop_calls_the_host true w w' c v ltac:(vm_compute; reflexivity))
  end.
  vm_compute. reflexivity.
Defined.
